(** * go-comic-converter: image pipeline and spine assembly

  A shallow embedding of
  - [internal/pkg/epubimageprocessor/processor.go] (the transform engine,
    the worker pool and the assembling loop of [Load]), and
  - [internal/pkg/epubtemplates/content.go] (manifest and spine of the
    package document),
  followed by the properties of these functions.

  Conventions.  A Go [int] is a [Z]; where the source does arithmetic on
  it, the 64-bit wrap-around is written out ([wrap64]).  A [float32] or
  [float64] is a [spec_float] of the Standard Library, computed with the
  IEEE 754 operations at precision 24 or 53.  A Go [map[string]string] is
  a [gmap string string].  A function that can panic returns an [option]
  ([None] is the panic). *)

From Stdlib Require Import ZArith Bool List String.
From Stdlib Require Import Floats.SpecFloat.
From stdpp Require Import base tactics option list gmap strings pretty.

Open Scope Z_scope.

(** ** Machine numbers *)

Definition wrap64 (z : Z) : Z := (z + 2 ^ 63) mod 2 ^ 64 - 2 ^ 63.

Module f32.
Definition t := spec_float.
Definition prec : Z := 24.
Definition emax : Z := 128.
Definition of_int (z : Z) : t := binary_normalize prec emax z 0 false.
Definition add : t -> t -> t := SFadd prec emax.
Definition mul : t -> t -> t := SFmul prec emax.
Definition div : t -> t -> t := SFdiv prec emax.
(** The decimal constant [n / 10^4], rounded to the nearest [float32] as
    the Go compiler does for a constant used in a [float32] expression. *)
Definition decimal4 (n : Z) : t := div (of_int n) (of_int 10000).
End f32.

Module f64.
Definition t := spec_float.
Definition prec : Z := 53.
Definition emax : Z := 1024.
Definition of_int (z : Z) : t := binary_normalize prec emax z 0 false.
Definition div : t -> t -> t := SFdiv prec emax.
(** Go's [==] on floats: false on NaN. *)
Definition eqb : t -> t -> bool := SFeqb.
End f64.

(** ** Package [image] of the Go library: points and rectangles *)

Module image.
Record Point := { X : Z; Y : Z }.
Record Rectangle := { Min : Point; Max : Point }.

Definition Dx (r : Rectangle) : Z := wrap64 (X (Max r) - X (Min r)).
Definition Dy (r : Rectangle) : Z := wrap64 (Y (Max r) - Y (Min r)).

Definition Rect (x0 y0 x1 y1 : Z) : Rectangle :=
  {| Min := {| X := Z.min x0 x1; Y := Z.min y0 y1 |};
     Max := {| X := Z.max x0 x1; Y := Z.max y0 y1 |} |}.

(** The concrete image types the type switch of [createImage] tells
    apart; [Other] is any further implementation of [image.Image]. *)
Inductive Kind :=
| Gray | Gray16 | RGBA | RGBA64 | NRGBA | NRGBA64
| Alpha | Alpha16 | CMYK | Paletted | Other.
End image.

(** ** Package [epuboptions]

    Modelled from the spec: the configuration records, declared outside the
    two files above; they hold the fields of the configuration surface
    that the two files read, under the names the files use. *)

Module epuboptions.
Record ViewOpts := {
  Width : Z;
  Height : Z;
  PortraitOnly : bool
}.

Record CropOpts := {
  Enabled : bool;
  Left : Z;
  Up : Z;
  Right : Z;
  Bottom : Z;
  Limit : Z;
  SkipIfLimitReached : bool
}.

Record ImageOpts := {
  Crop : CropOpts;
  Quality : Z;
  Brightness : Z;
  Contrast : Z;
  AutoContrast : bool;
  AutoRotate : bool;
  AutoSplitDoublePage : bool;
  KeepDoublePageIfSplit : bool;
  KeepSplitDoublePageAspect : bool;
  NoBlankImage : bool;
  Manga : bool;
  HasCover : bool;
  View : ViewOpts;
  GrayScale : bool;
  GrayScaleMode : Z;
  Resize : bool;
  Format : string;
  AppleBookCompatibility : bool
}.

Record EPUBOptions := {
  Image : ImageOpts;
  Dry : bool;
  Quiet : bool;
  Json : bool
}.
End epuboptions.

(** ** Package [epubimage]: the page record *)

Module epubimage.
(** The destination buffer of a transformation.  [RawBuf] is the identity
    of the allocation (Go compares the [Raw] interface values by the
    pointer they hold); the pixels themselves are not modelled. *)
Record RawImage := {
  RawBuf : nat;
  RawKind : image.Kind;
  RawBounds : image.Rectangle
}.

(** Modelled from the spec: the page record (identity, geometry, flags,
    payload, position), declared outside the two files above, with the
    fields that [processor.go] fills in and [content.go] reads. *)
Record EPUBImage := {
  Id : Z;
  Part : Z;
  Raw : option RawImage;
  Width : Z;
  Height : Z;
  IsBlank : bool;
  DoublePage : bool;
  Path : string;
  Name : string;
  Format : string;
  OriginalAspectRatio : f64.t;
  Error : option string;
  Position : string
}.

Definition setPosition (img : EPUBImage) (p : string) : EPUBImage :=
  {| Id := Id img; Part := Part img; Raw := Raw img; Width := Width img;
     Height := Height img; IsBlank := IsBlank img;
     DoublePage := DoublePage img; Path := Path img; Name := Name img;
     Format := Format img; OriginalAspectRatio := OriginalAspectRatio img;
     Error := Error img; Position := p |}.

Definition setRaw (img : EPUBImage) (r : option RawImage) : EPUBImage :=
  {| Id := Id img; Part := Part img; Raw := r; Width := Width img;
     Height := Height img; IsBlank := IsBlank img;
     DoublePage := DoublePage img; Path := Path img; Name := Name img;
     Format := Format img; OriginalAspectRatio := OriginalAspectRatio img;
     Error := Error img; Position := Position img |}.

Definition raw_eqb (a b : option RawImage) : bool :=
  match a, b with
  | None, None => true
  | Some x, Some y => Nat.eqb (RawBuf x) (RawBuf y)
  | _, _ => false
  end.

Definition err_eqb (a b : option string) : bool :=
  match a, b with
  | None, None => true
  | Some x, Some y => String.eqb x y
  | _, _ => false
  end.

(** Go's [==] on two [EPUBImage] values: field by field. *)
Definition eqb (a b : EPUBImage) : bool :=
  (Id a =? Id b) && (Part a =? Part b) && raw_eqb (Raw a) (Raw b)
  && (Width a =? Width b) && (Height a =? Height b)
  && Bool.eqb (IsBlank a) (IsBlank b)
  && Bool.eqb (DoublePage a) (DoublePage b)
  && String.eqb (Path a) (Path b) && String.eqb (Name a) (Name b)
  && String.eqb (Format a) (Format b)
  && f64.eqb (OriginalAspectRatio a) (OriginalAspectRatio b)
  && err_eqb (Error a) (Error b)
  && String.eqb (Position a) (Position b).

(** The methods of [EPUBImage] that name a page's resources; they are
    declared next to the record, outside the two files above. *)
Class Keys := {
  ImgKey : EPUBImage -> string;
  ImgPath : EPUBImage -> string;
  MediaType : EPUBImage -> string;
  PageKey : EPUBImage -> string;
  PagePath : EPUBImage -> string;
  SpaceKey : EPUBImage -> string;
  SpacePath : EPUBImage -> string;
  EPUBImgPath : EPUBImage -> string
}.
End epubimage.

(** ** Package [epubtemplates]: [content.go] *)

Module epubtemplates.
Import epubimage.

Record Content := {
  Title : string;
  HasTitlePage : bool;
  UID : string;
  Author : string;
  Publisher : string;
  UpdatedAt : string;
  ImageOptions : epuboptions.ImageOpts;
  Cover : EPUBImage;
  Images : list EPUBImage;
  Current : Z;
  Total : Z
}.

Record tag := {
  name : string;
  attrs : gmap string string;
  value : string
}.

Definition Manga (o : Content) : bool := epuboptions.Manga (ImageOptions o).
Definition AppleBookCompatibility (o : Content) : bool :=
  epuboptions.AppleBookCompatibility (ImageOptions o).
Definition PortraitOnly (o : Content) : bool :=
  epuboptions.PortraitOnly (epuboptions.View (ImageOptions o)).
Definition KeepDoublePageIfSplit (o : Content) : bool :=
  epuboptions.KeepDoublePageIfSplit (ImageOptions o).

Definition center : string := "rendition:page-spread-center".
Definition right : string := "rendition:page-spread-right".
Definition left : string := "rendition:page-spread-left".

(** The closures of [getSpineAuto] share the local [isOnTheRight]; they are
    written as functions from its value before the call to the result and
    its value after the call. *)
Definition Spread (A : Type) : Type := bool -> A * bool.

Definition getSpread (o : Content) (isDoublePage : bool) : Spread string :=
  fun isOnTheRight =>
    let isOnTheRight := negb isOnTheRight in
    if isDoublePage then (center, negb (Manga o))
    else if isOnTheRight then (right, isOnTheRight)
    else (left, isOnTheRight).

Definition getSpreadBlank (o : Content) : Spread string :=
  fun isOnTheRight =>
    let '(p, isOnTheRight) := getSpread o false isOnTheRight in
    (p +:+ " layout-blank", isOnTheRight).

Definition itemref (idref : string) : tag :=
  {| name := "itemref"; attrs := {[ "idref" := idref ]}; value := "" |}.

Definition itemrefProps (idref properties : string) : tag :=
  {| name := "itemref";
     attrs := {[ "idref" := idref; "properties" := properties ]};
     value := "" |}.

Definition item (id href mediaType : string) : tag :=
  {| name := "item";
     attrs := {[ "id" := id; "href" := href; "media-type" := mediaType ]};
     value := "" |}.

(** The state of the loops of [getSpineAuto]: [isOnTheRight], the spine
    built so far and the backing array of [o.Images]. *)
Record spineState := {
  isOnTheRight : bool;
  spine : list tag;
  images : list EPUBImage
}.

Section WithKeys.
Context {keys : Keys}.

(** Whether the loop inserts a spacer before [img]. *)
Definition needsSpacer (o : Content) (img : EPUBImage) (isOnTheRight : bool) : bool :=
  (DoublePage img || (Part img =? 1)) && Bool.eqb (Manga o) isOnTheRight.

(** The spacer of one iteration: the entries it appends and the state. *)
Definition spacerBefore (o : Content) (img : EPUBImage) : Spread (list tag) :=
  fun isOnTheRight =>
    if needsSpacer o img isOnTheRight then
      let '(p, isOnTheRight) := getSpreadBlank o isOnTheRight in
      ([itemrefProps (SpaceKey img) p], isOnTheRight)
    else ([], isOnTheRight).

(** [img.Position = getSpread(img.DoublePage)]. *)
Definition placePage (o : Content) (img : EPUBImage) : Spread EPUBImage :=
  fun isOnTheRight =>
    let '(p, isOnTheRight) := getSpread o (DoublePage img) isOnTheRight in
    (setPosition img p, isOnTheRight).

(** One iteration of [for i, img := range o.Images]. *)
Definition spineIter (o : Content) (st : spineState) (i : nat) (img : EPUBImage)
  : spineState :=
  let '(blank, r) := spacerBefore o img (isOnTheRight st) in
  let '(img, r) := placePage o img r in
  {| isOnTheRight := r;
     spine := (spine st ++ blank) ++ [itemrefProps (PageKey img) (Position img)];
     images := <[i := img]> (images st) |}.

Fixpoint spineRange (o : Content) (st : spineState) (i : nat)
    (rest : list EPUBImage) : spineState :=
  match rest with
  | [] => st
  | img :: rest => spineRange o (spineIter o st i img) (S i) rest
  end.

Definition initialIsOnTheRight (o : Content) : bool :=
  let isOnTheRight := negb (Manga o) in
  if AppleBookCompatibility o then negb isOnTheRight else isOnTheRight.

(** The part of [getSpineAuto] before the loop: the title page. *)
Definition spineTitle (o : Content) : spineState :=
  let r := initialIsOnTheRight o in
  if HasTitlePage o then
    if negb (AppleBookCompatibility o) then
      let '(blank, r) := getSpreadBlank o r in
      let '(p, r) := getSpread o false r in
      {| isOnTheRight := r;
         spine := [itemrefProps "space_title" blank; itemrefProps "page_title" p];
         images := Images o |}
    else
      let '(p, r) := getSpread o true r in
      {| isOnTheRight := r;
         spine := [itemrefProps "page_title" p];
         images := Images o |}
  else {| isOnTheRight := r; spine := []; images := Images o |}.

(** [getSpineAuto] returns the spine; the second component is the array of
    [o.Images] as the function leaves it, with the positions written back.
    [None] is the panic of [o.Images[len(o.Images)-1]] on an empty slice. *)
Definition getSpineAuto (o : Content) : option (list tag * list EPUBImage) :=
  let st := spineRange o (spineTitle o) 0 (Images o) in
  if Bool.eqb (Manga o) (isOnTheRight st) then
    match last (images st) with
    | None => None
    | Some img =>
        let '(p, _) := getSpread o false (isOnTheRight st) in
        Some (spine st ++ [itemrefProps (SpaceKey img) p], images st)
    end
  else Some (spine st, images st).

(** The loop after its first [k] iterations: the value of [isOnTheRight]
    and the spine built so far. *)
Definition loopAfter (o : Content) (k : nat) : spineState :=
  spineRange o (spineTitle o) 0 (take k (Images o)).

Definition carriedState (o : Content) (k : nat) : bool :=
  isOnTheRight (loopAfter o k).

Definition spineUpTo (o : Content) (k : nat) : list tag :=
  spine (loopAfter o k).

(** The page that iteration [k] writes back, and the state it leaves. *)
Definition placed (o : Content) (k : nat) (img : EPUBImage) : EPUBImage * bool :=
  placePage o img (spacerBefore o img (carriedState o k)).2.

Definition getSpinePortrait (o : Content) : list tag :=
  (if HasTitlePage o then [itemref "page_title"] else [])
  ++ map (fun img => itemref (PageKey img)) (Images o).

(** The spine element as [String] fills it. *)
Definition String_spine (o : Content) : option (list tag * list EPUBImage) :=
  if PortraitOnly o then Some (getSpinePortrait o, Images o)
  else getSpineAuto o.

(** The three lists the closure [addTag] of [getManifest] appends to. *)
Record manifestTags := {
  imageTags : list tag;
  pageTags : list tag;
  spaceTags : list tag
}.

Definition imageItem (img : EPUBImage) : tag :=
  item (ImgKey img) (ImgPath img) (MediaType img).
Definition pageItem (img : EPUBImage) : tag :=
  item (PageKey img) (PagePath img) "application/xhtml+xml".
Definition spaceItem (img : EPUBImage) : tag :=
  item (SpaceKey img) (SpacePath img) "application/xhtml+xml".

Definition addTag (acc : manifestTags) (img : EPUBImage) (withSpace : bool)
  : manifestTags :=
  {| imageTags := imageTags acc ++ [imageItem img];
     pageTags := pageTags acc ++ [pageItem img];
     spaceTags :=
       if withSpace then spaceTags acc ++ [spaceItem img] else spaceTags acc |}.

(** The second argument of [addTag] in the loop of [getManifest]. *)
Definition withSpace (o : Content) (lastImage img : EPUBImage) : bool :=
  negb (PortraitOnly o)
  && (DoublePage img
      || (negb (KeepDoublePageIfSplit o) && (Part img =? 1))
      || ((Part img =? 0) && eqb img lastImage)).

Definition manifestHead (o : Content) : list tag :=
  [ {| name := "item";
       attrs := {[ "id" := "toc"; "href" := "toc.xhtml"; "properties" := "nav";
                   "media-type" := "application/xhtml+xml" ]};
       value := "" |};
    item "css" "Text/style.css" "text/css";
    item "page_cover" "Text/cover.xhtml" "application/xhtml+xml";
    item "img_cover" "Images/cover.jpeg" "image/jpeg" ]
  ++ (if HasTitlePage o then
        [ item "page_title" "Text/title.xhtml" "application/xhtml+xml";
          item "img_title" "Images/title.jpeg" "image/jpeg" ]
        ++ (if negb (PortraitOnly o) then
              [ item "space_title" "Text/space_title.xhtml" "application/xhtml+xml" ]
            else [])
      else []).

Definition manifestLoop (o : Content) (lastImage : EPUBImage) : manifestTags :=
  foldl (fun acc img => addTag acc img (withSpace o lastImage img))
        {| imageTags := []; pageTags := []; spaceTags := [] |}
        (Images o).

(** [None] is the panic of [o.Images[len(o.Images)-1]] on an empty slice. *)
Definition getManifest (o : Content) : option (list tag) :=
  match last (Images o) with
  | None => None
  | Some lastImage =>
      let acc := manifestLoop o lastImage in
      Some (manifestHead o ++ imageTags acc ++ pageTags acc ++ spaceTags acc)
  end.

(** The images of [o] that [getManifest] gives a spacer item. *)
Definition spacedImages (o : Content) : list EPUBImage :=
  match last (Images o) with
  | None => []
  | Some lastImage => filter (fun img => withSpace o lastImage img = true) (Images o)
  end.

(** [getGuide]; [None] is the panic of [o.Images[0]] on an empty slice. *)
Definition reference (kind title href : string) : tag :=
  {| name := "reference";
     attrs := {[ "type" := kind; "title" := title; "href" := href ]};
     value := "" |}.

Definition getGuide (o : Content) : option (list tag) :=
  match Images o with
  | [] => None
  | img :: _ =>
      Some [reference "cover" "cover" "Text/cover.xhtml";
            reference "text" "content" (PagePath img)]
  end.

(** A spine entry refers to an item of the manifest: its [idref] is the
    [id] of one of the items. *)
Definition declared (items : list tag) (t : tag) : Prop :=
  exists m id, m ∈ items /\ attrs m !! "id" = Some id
               /\ attrs t !! "idref" = Some id.

End WithKeys.

(** The two string conversions [getMeta] calls: [View.Dimension] of the
    options and [utils.IntToString], both declared outside [content.go]. *)
Class Formatting := {
  Dimension : epuboptions.ViewOpts -> string;
  IntToString : Z -> string
}.

(** The package document [String] builds, before it is indented and
    written out by the XML library: the attributes of the [package],
    [metadata] and [spine] elements and the children that [addToElement]
    creates, one per tag. *)
Record package := {
  pkgAttrs : gmap string string;
  pkgMetadataAttrs : gmap string string;
  pkgMetadata : list tag;
  pkgManifest : list tag;
  pkgSpineAttrs : gmap string string;
  pkgSpine : list tag;
  pkgGuide : list tag
}.

Section WithFormatting.
Context {keys : Keys} {fmt : Formatting}.

Definition metaProperty (property value : string) : tag :=
  {| name := "meta"; attrs := {[ "property" := property ]}; value := value |}.

Definition metaName (tagName name content : string) : tag :=
  {| name := tagName; attrs := {[ "name" := name; "content" := content ]};
     value := "" |}.

Definition dc (tagName value : string) : tag :=
  {| name := tagName; attrs := ∅; value := value |}.

Definition getMeta (o : Content) : list tag :=
  let metas :=
    [ metaProperty "dcterms:modified" (UpdatedAt o);
      metaProperty "schema:accessMode" "visual";
      metaProperty "schema:accessModeSufficient" "visual";
      metaProperty "schema:accessibilityHazard" "noFlashingHazard";
      metaProperty "schema:accessibilityHazard" "noMotionSimulationHazard";
      metaProperty "schema:accessibilityHazard" "noSoundHazard";
      metaName "meta" "book-type" "comic";
      metaName "opf:meta" "fixed-layout" "true";
      metaName "opf:meta" "original-resolution"
        (Dimension (epuboptions.View (ImageOptions o)));
      dc "dc:title" (Title o);
      {| name := "dc:identifier"; attrs := {[ "id" := "ean" ]};
         value := "urn:uuid:" +:+ UID o |};
      dc "dc:language" "en";
      dc "dc:creator" (Author o);
      dc "dc:publisher" (Publisher o);
      dc "dc:contributor" "Go Comic Convertor";
      dc "dc:date" (UpdatedAt o) ] in
  let metas :=
    if PortraitOnly o then
      metas ++ [ metaProperty "rendition:layout" "pre-paginated";
                 metaProperty "rendition:spread" "none";
                 metaProperty "rendition:orientation" "portrait" ]
    else
      metas ++ [ metaProperty "rendition:layout" "pre-paginated";
                 metaProperty "rendition:spread" "auto";
                 metaProperty "rendition:orientation" "auto" ] in
  let metas :=
    if Manga o then
      metas ++ [metaName "meta" "primary-writing-mode" "horizontal-rl"]
    else
      metas ++ [metaName "meta" "primary-writing-mode" "horizontal-lr"] in
  let metas := metas ++ [metaName "meta" "cover" "img_cover"] in
  if Total o >? 1 then
    metas ++ [ metaName "meta" "calibre:series" (Title o);
               metaName "meta" "calibre:series_index" (IntToString (Current o)) ]
  else metas.

Definition withImages (o : Content) (imgs : list EPUBImage) : Content :=
  {| Title := Title o; HasTitlePage := HasTitlePage o; UID := UID o;
     Author := Author o; Publisher := Publisher o; UpdatedAt := UpdatedAt o;
     ImageOptions := ImageOptions o; Cover := Cover o; Images := imgs;
     Current := Current o; Total := Total o |}.

(** [String], up to the serialisation: the package and the array of
    [o.Images] as the call leaves it.  The sections are built in the order
    of the source (metadata, manifest, spine, guide); [None] is a panic of
    one of them. *)
Definition String_package (o : Content) : option (package * list EPUBImage) :=
  let metas := getMeta o in
  match getManifest o with
  | None => None
  | Some items =>
      match String_spine o with
      | None => None
      | Some (sp, imgs) =>
          match getGuide (withImages o imgs) with
          | None => None
          | Some refs =>
              Some ({| pkgAttrs :=
                         {[ "xmlns" := "http://www.idpf.org/2007/opf";
                            "unique-identifier" := "ean";
                            "version" := "3.0";
                            "prefix" :=
                              "rendition: http://www.idpf.org/vocab/rendition/#" ]};
                       pkgMetadataAttrs :=
                         {[ "xmlns:dc" := "http://purl.org/dc/elements/1.1/";
                            "xmlns:opf" := "http://www.idpf.org/2007/opf" ]};
                       pkgMetadata := metas;
                       pkgManifest := items;
                       pkgSpineAttrs :=
                         {[ "page-progression-direction" :=
                              if Manga o then "rtl" else "ltr" ]};
                       pkgSpine := sp;
                       pkgGuide := refs |}, imgs)
          end
      end
  end.

End WithFormatting.
End epubtemplates.

(** ** The filter library: [gift] and [epubimagefilters]

    [processor.go] builds a chain of filters and asks it for the bounds of
    its result.  The filters are implemented outside the two files; the
    chain is modelled by the filters it holds, in order, and the [Bounds]
    method of the filters is the interface [Filters]. *)

Module gift.
Import image.

(** A decoded source image: its concrete type, its bounds and its pixels
    (16-bit red, green, blue and alpha at a point). *)
Record Image := {
  ImgKind : Kind;
  Bounds : Rectangle;
  At : Z -> Z -> Z * Z * Z * Z
}.

Definition pixel : Type := f32.t * f32.t * f32.t * f32.t.

Inductive Filter :=
| CropSplitDoublePage (right : bool)
| AutoCrop (img : Image) (bounds : Rectangle)
    (cutLeft cutUp cutRight cutBottom limit : Z) (skipIfLimitReached : bool)
| Rotate90
| AutoContrast
| Contrast (percentage : f32.t)
| Brightness (percentage : f32.t)
| ResizeToFit (width height : Z)
| ColorFunc (fn : f32.t -> f32.t -> f32.t -> f32.t -> pixel)
| Grayscale
| Pixel.

Class Filters := {
  FilterBounds : Filter -> Rectangle -> Rectangle
}.

(** [gift.GIFT]: [Add] appends a filter, [Bounds] threads the rectangle
    through the filters in order. *)
Definition GIFT : Type := list Filter.
Definition New : GIFT := [].
Definition Add (g : GIFT) (f : Filter) : GIFT := g ++ [f].
Definition GIFT_Bounds `{Filters} (g : GIFT) (srcBounds : Rectangle) : Rectangle :=
  foldl (fun b f => FilterBounds f b) srcBounds g.
End gift.

(** ** Package [epubzip]: the storage writer, as far as [Load] uses it

    [StorageAdd written path raw quality] is the error of
    [imgStorage.Add(path, raw, quality)], if any, when the paths [written]
    were added before. *)

Module epubzip.
Class Storage := {
  StorageAdd : list string -> string -> option epubimage.RawImage -> Z -> option string
}.
End epubzip.

(** ** Package [epubimageprocessor]: [processor.go] *)

Module epubimageprocessor.
Import image epuboptions epubimage gift epubzip.

(** Modelled from the spec: the tasks of the loader (index, name, decoded
    image), declared outside the two files above, with the fields that
    [processor.go] reads. *)
Record task := {
  Id : Z;
  Image : gift.Image;
  Path : string;
  Name : string;
  Error : option string
}.

(** Modelled from the spec: the error values; [errNoImagesFound], the
    fatal "no images found" condition, is a variable of the package
    declared outside [processor.go]; [errOther] stands for the errors of
    the loader and of the storage writer. *)
Inductive error :=
| errNoImagesFound
| errOther (msg : string).

Definition ImageOf (e : EPUBOptions) : ImageOpts := epuboptions.Image e.

Definition createImage (e : EPUBOptions) (src : gift.Image) (r : Rectangle)
    (buf : nat) : RawImage :=
  let kind :=
    if GrayScale (ImageOf e) then Gray
    else match ImgKind src with
         | Gray => Gray
         | Gray16 => Gray16
         | RGBA => RGBA
         | RGBA64 => RGBA64
         | NRGBA => NRGBA
         | NRGBA64 => NRGBA64
         | Alpha => Alpha
         | Alpha16 => Alpha16
         | CMYK => CMYK
         | Paletted => Paletted
         | Other => NRGBA64
         end in
  {| RawBuf := buf; RawKind := kind; RawBounds := r |}.

(** The two colour functions of [transformImage]. *)
Definition grayAverage (r0 g0 b0 a0 : f32.t) : pixel :=
  let y := f32.div (f32.add (f32.add r0 g0) b0) (f32.of_int 3) in
  (y, y, y, a0).

Definition lumaR : f32.t := f32.decimal4 2126.
Definition lumaG : f32.t := f32.decimal4 7152.
Definition lumaB : f32.t := f32.decimal4 722.

Definition grayLuminance (r0 g0 b0 a0 : f32.t) : pixel :=
  let y := f32.add (f32.add (f32.mul lumaR r0) (f32.mul lumaG g0))
                   (f32.mul lumaB b0) in
  (y, y, y, a0).

Definition grayScaleFilter (mode : Z) : Filter :=
  if mode =? 1 then ColorFunc grayAverage
  else if mode =? 2 then ColorFunc grayLuminance
  else Grayscale.

Section WithFilters.
Context {filters : Filters}.

Definition addIf (c : bool) (g : GIFT) (f : Filter) : GIFT :=
  if c then Add g f else g.

(** The chain of [transformImage] where it computes [dstBounds]: the split
    before the crop, the crop, the split after the crop. *)
Definition geometryFilters (e : EPUBOptions) (input : task) (part : Z)
    (right : bool) : GIFT :=
  let o := ImageOf e in
  let src := Image input in
  let srcBounds := Bounds src in
  let g := New in
  let g := addIf ((part >? 0) && negb (KeepSplitDoublePageAspect o)) g
             (CropSplitDoublePage right) in
  let g :=
    if Enabled (Crop o) || NoBlankImage o then
      let f := AutoCrop src (GIFT_Bounds g (Bounds src))
                 (Left (Crop o)) (Up (Crop o)) (Right (Crop o))
                 (Bottom (Crop o)) (Limit (Crop o))
                 (SkipIfLimitReached (Crop o)) in
      let size := FilterBounds f srcBounds in
      let isBlank := (Dx size =? 0) && (Dy size =? 0) in
      addIf (Enabled (Crop o) || (NoBlankImage o && isBlank)) g f
    else g in
  addIf ((part >? 0) && KeepSplitDoublePageAspect o) g
    (CropSplitDoublePage right).

Definition isDoublePage (e : EPUBOptions) (input : task) (part : Z)
    (right : bool) : bool :=
  let srcBounds := Bounds (Image input) in
  let dstBounds := GIFT_Bounds (geometryFilters e input part right)
                     (Bounds (Image input)) in
  (part =? 0) && (Dx srcBounds >? Dy srcBounds)
  && (Dx dstBounds >? Dy dstBounds).

(** The whole chain of [transformImage]. *)
Definition allFilters (e : EPUBOptions) (input : task) (part : Z)
    (right : bool) : GIFT :=
  let o := ImageOf e in
  let g := geometryFilters e input part right in
  let g := addIf (AutoRotate o && isDoublePage e input part right) g Rotate90 in
  let g := addIf (epuboptions.AutoContrast o) g gift.AutoContrast in
  let g := addIf (negb (epuboptions.Contrast o =? 0)) g
             (gift.Contrast (f32.of_int (epuboptions.Contrast o))) in
  let g := addIf (negb (epuboptions.Brightness o =? 0)) g
             (gift.Brightness (f32.of_int (epuboptions.Brightness o))) in
  let g := addIf (Resize o) g
             (ResizeToFit (epuboptions.Width (View o)) (epuboptions.Height (View o))) in
  let g := addIf (GrayScale o) g (grayScaleFilter (GrayScaleMode o)) in
  Add g Pixel.

(** [buf] names the buffer that [createImage] allocates in this call. *)
Definition transformImage (e : EPUBOptions) (input : task) (part : Z)
    (right : bool) (buf : nat) : EPUBImage :=
  let src := Image input in
  let g := allFilters e input part right in
  let dst := createImage e src (GIFT_Bounds g (Bounds src)) buf in
  {| epubimage.Id := Id input;
     Part := part;
     Raw := Some dst;
     epubimage.Width := Dx (RawBounds dst);
     epubimage.Height := Dy (RawBounds dst);
     IsBlank := (Dx (RawBounds dst) =? 1) && (Dy (RawBounds dst) =? 1);
     DoublePage := isDoublePage e input part right;
     epubimage.Path := Path input;
     epubimage.Name := Name input;
     epubimage.Format := epuboptions.Format (ImageOf e);
     OriginalAspectRatio :=
       f64.div (f64.of_int (Dy (Bounds src))) (f64.of_int (Dx (Bounds src)));
     epubimage.Error := Error input;
     Position := "" |}.

(** *** The worker pool of [Load]

    A worker repeats, for each task it receives: transform part 0, store
    and send it unless it is withheld, then transform, store and send the
    two halves when the page is split.  The body of the loop for one task
    is the list of its effects, in order. *)

Inductive action :=
| Transform (id part : Z)
| Store (name : string) (img : EPUBImage)
| Send (img : EPUBImage).

(** The buffers of the task at index [n] of the input stream. *)
Definition bufferOf (n : nat) (part : nat) : nat := (3 * n + part)%nat.

Definition withheld (e : EPUBOptions) (input : task) (img : EPUBImage) : bool :=
  DoublePage img && (Id input >? 0)
  && AutoSplitDoublePage (ImageOf e) && negb (KeepDoublePageIfSplit (ImageOf e)).

(** The condition of the [continue] after part 0. *)
Definition noSplit (e : EPUBOptions) (img : EPUBImage) : bool :=
  negb (AutoSplitDoublePage (ImageOf e))
  || negb (DoublePage img)
  || (HasCover (ImageOf e) && (epubimage.Id img =? 0)).

Definition splitPart (e : EPUBOptions) (n : nat) (input : task)
    (ib : nat * bool) : list action :=
  let '(i, b) := ib in
  let img := transformImage e input (Z.of_nat i + 1) b (bufferOf n (i + 1)) in
  [Transform (Id input) (Z.of_nat i + 1); Store (Name input) img;
   Send (setRaw img None)].

Definition workerBody (e : EPUBOptions) (nt : nat * task) : list action :=
  let '(n, input) := nt in
  let img := transformImage e input 0 (Manga (ImageOf e)) (bufferOf n 0) in
  [Transform (Id input) 0]
  ++ (if negb (withheld e input img) then
        [Store (Name input) img;
         Send (if epubimage.Id img >? 0 then setRaw img None else img)]
      else [])
  ++ (if noSplit e img then []
      else flat_map (splitPart e n input)
             [(0%nat, Manga (ImageOf e)); (1%nat, negb (Manga (ImageOf e)))]).

(** The images a list of actions sends, in order. *)
Definition sends (acts : list action) : list EPUBImage :=
  flat_map (fun a => match a with Send img => [img] | _ => [] end) acts.

(** The images a worker has still to send for its current task. *)
Definition pending (w : option (list action)) : list EPUBImage :=
  match w with Some acts => sends acts | None => [] end.

(** The policy of the pool in words: the unsplit page is withheld when it
    was detected double, auto-split is on, keep-double-page-if-split is off
    and the id is greater than 0; the page is split when auto-split is on,
    it was detected double and it is not the cover (has-cover and id 0). *)
Definition isWithheld (e : EPUBOptions) (input : task) (img0 : EPUBImage) : Prop :=
  DoublePage img0 = true /\ AutoSplitDoublePage (ImageOf e) = true
  /\ KeepDoublePageIfSplit (ImageOf e) = false /\ 0 < Id input.

Definition isSplit (e : EPUBOptions) (input : task) (img0 : EPUBImage) : Prop :=
  AutoSplitDoublePage (ImageOf e) = true /\ DoublePage img0 = true
  /\ ~ (HasCover (ImageOf e) = true /\ Id input = 0).

#[export] Instance isWithheld_dec e input img0 : Decision (isWithheld e input img0).
Proof. unfold isWithheld. apply _. Defined.

#[export] Instance isSplit_dec e input img0 : Decision (isSplit e input img0).
Proof. unfold isSplit. apply _. Defined.

(** The buffer is released before an image is sent, except for id 0. *)
Definition release (img : EPUBImage) : EPUBImage :=
  if epubimage.Id img >? 0 then setRaw img None else img.

Definition part0 (e : EPUBOptions) (nt : nat * task) : EPUBImage :=
  transformImage e nt.2 0 (Manga (ImageOf e)) (bufferOf nt.1 0).

Definition half (e : EPUBOptions) (nt : nat * task) (i : nat) : EPUBImage :=
  transformImage e nt.2 (Z.of_nat i)
    (if Nat.eqb i 1 then Manga (ImageOf e) else negb (Manga (ImageOf e)))
    (bufferOf nt.1 i).

(** What the pool is to send for one task, following the policy. *)
Definition emitted (e : EPUBOptions) (nt : nat * task) : list EPUBImage :=
  (if decide (isWithheld e nt.2 (part0 e nt)) then [] else [release (part0 e nt)])
  ++ (if decide (isSplit e nt.2 (part0 e nt))
      then [setRaw (half e nt 1) None; setRaw (half e nt 2) None]
      else []).

(** The input stream, each task with its index. *)
Definition indexed (tasks : list task) : list (nat * task) :=
  imap (fun n t => (n, t)) tasks.

(** The state of the pool.  A worker is [Some acts] while it runs, [acts]
    being what is left of the body for its current task, and [None] once
    its loop over the input channel has ended.  [output] is what the
    consumer has received, [fatal] the message of [utils.Fatalf]. *)
Record pool := {
  queue : list (nat * task);
  workers : list (option (list action));
  output : list EPUBImage;
  transformed : list (Z * Z);
  written : list string;
  fatal : option string
}.

Section WithStorage.
Context {keys : Keys} {storage : Storage}.

Definition setWorker (p : pool) (i : nat) (w : option (list action))
    (q : list (nat * task)) : pool :=
  {| queue := q; workers := <[i := w]> (workers p); output := output p;
     transformed := transformed p; written := written p; fatal := fatal p |}.

Definition perform (e : EPUBOptions) (p : pool) (a : action) : pool :=
  match a with
  | Transform id part =>
      {| queue := queue p; workers := workers p; output := output p;
         transformed := transformed p ++ [(id, part)];
         written := written p; fatal := fatal p |}
  | Store name img =>
      match StorageAdd (written p) (EPUBImgPath img) (Raw img)
              (Quality (ImageOf e)) with
      | Some err =>
          {| queue := queue p; workers := workers p; output := output p;
             transformed := transformed p; written := written p;
             fatal := Some ("error with " +:+ name +:+ ": " +:+ err) |}
      | None =>
          {| queue := queue p; workers := workers p; output := output p;
             transformed := transformed p;
             written := written p ++ [EPUBImgPath img]; fatal := fatal p |}
      end
  | Send img =>
      {| queue := queue p; workers := workers p; output := output p ++ [img];
         transformed := transformed p; written := written p; fatal := fatal p |}
  end.

(** Worker [i] makes its next move. *)
Definition step (e : EPUBOptions) (p : pool) (i : nat) : pool :=
  match fatal p with
  | Some _ => p
  | None =>
      match workers p !! i with
      | Some (Some []) =>
          match queue p with
          | [] => setWorker p i None []
          | nt :: q => setWorker p i (Some (workerBody e nt)) q
          end
      | Some (Some (a :: acts)) =>
          let p := perform e p a in
          match fatal p with
          | Some _ => p
          | None => setWorker p i (Some acts) (queue p)
          end
      | _ => p
      end
  end.

Definition poolInit (nworkers : nat) (tasks : list task) : pool :=
  {| queue := indexed tasks;
     workers := replicate nworkers (Some []);
     output := []; transformed := []; written := []; fatal := None |}.

(** The pool after the moves of a schedule, a list of worker indices. *)
Definition runPool (e : EPUBOptions) (nworkers : nat) (tasks : list task)
    (sched : list nat) : pool :=
  foldl (step e) (poolInit nworkers tasks) sched.

(** [wg.Wait()] returns: every worker has left its loop. *)
Definition poolDone (p : pool) : bool :=
  forallb (fun w => match w with None => true | Some _ => false end) (workers p).

(** The loop of [Load] over [imageOutput]: the progress bar and the list. *)
Definition collect (e : EPUBOptions) (acc : Z * list EPUBImage) (img : EPUBImage)
  : Z * list EPUBImage :=
  let '(bar, images) := acc in
  let bar := if Part img =? 0 then bar + 1 else bar in
  if NoBlankImage (ImageOf e) && IsBlank img then (bar, images)
  else (bar, images ++ [img]).

Definition dryImage (e : EPUBOptions) (img : task) : EPUBImage :=
  {| epubimage.Id := Id img; Part := 0; Raw := None; epubimage.Width := 0;
     epubimage.Height := 0; IsBlank := false; DoublePage := false;
     epubimage.Path := Path img; epubimage.Name := Name img;
     epubimage.Format := epuboptions.Format (ImageOf e);
     OriginalAspectRatio := S754_zero false;
     epubimage.Error := None; Position := "" |}.

(** What a call of [Load] leaves behind besides its result: the calls of
    [transformImage] (id and part), the paths added to the storage, the
    maximum the progress bar was created with, if it was created, and the
    number of units added to it. *)
Record effects := {
  transforms : list (Z * Z);
  stored : list string;
  barMax : option Z;
  progress : Z
}.

Definition noEffects : effects :=
  {| transforms := []; stored := []; barMax := None; progress := 0 |}.

Inductive outcome :=
| Returned (images : list EPUBImage) (err : option error)
| Exited (msg : string).

(** The percentage [wr] that [Load] passes to [e.WorkersRatio], and the
    number of workers it starts, [WorkersRatio] being that method. *)
Definition wr (e : EPUBOptions) : Z :=
  if String.eqb (epuboptions.Format (ImageOf e)) "png" then 100 else 50.

Definition nbWorkers (e : EPUBOptions) (WorkersRatio : Z -> Z) : nat :=
  Z.to_nat (WorkersRatio (wr e)).

(** [Load].  [loaded] is the result of [e.load()], [opened] the error of
    [NewStorageImageWriter], [WorkersRatio] the method [e.WorkersRatio].
    [sched] is the interleaving of the workers; the result is [None] when
    the schedule ends before the workers do. *)
Definition Load (e : EPUBOptions) (loaded : error + Z * list task)
    (opened : option error) (WorkersRatio : Z -> Z) (sched : list nat)
  : option (outcome * effects) :=
  match loaded with
  | inl err => Some (Returned [] (Some err), noEffects)
  | inr (imageCount, imageInput) =>
      if Dry e then
        Some (Returned (map (dryImage e) imageInput) None, noEffects)
      else
        match opened with
        | Some err =>
            Some (Returned [] (Some err),
                  {| transforms := []; stored := []; barMax := Some imageCount;
                     progress := 0 |})
        | None =>
            let p := runPool e (nbWorkers e WorkersRatio) imageInput sched in
            let '(bar, images) := foldl (collect e) (0, []) (output p) in
            let eff := {| transforms := transformed p; stored := written p;
                          barMax := Some imageCount; progress := bar |} in
            match fatal p with
            | Some msg => Some (Exited msg, eff)
            | None =>
                if poolDone p then
                  match images with
                  | [] => Some (Returned [] (Some errNoImagesFound), eff)
                  | _ => Some (Returned images None, eff)
                  end
                else None
            end
        end
  end.

(** *** Notions used in the proofs about the pool *)

(** Every image the pool is to send has been received, is pending in a
    worker or belongs to a task still in the queue; and once a worker has
    left its loop the queue is empty. *)
Definition poolInv (e : EPUBOptions) (tasks : list task) (p : pool) : Prop :=
  output p ++ flat_map pending (workers p) ++ flat_map (emitted e) (queue p)
    ≡ₚ flat_map (emitted e) (indexed tasks)
  /\ ((exists i, workers p !! i = Some None) -> queue p = []).

(** A bound on the number of moves the pool can still make. *)
Definition workerLeft (w : option (list action)) : nat :=
  match w with None => 0 | Some acts => S (length acts) end.

Definition workLeft (p : pool) : nat :=
  sum_list_with workerLeft (workers p) + 10 * length (queue p).

(** The images the loop of [Load] keeps, and those it counts. *)
Definition isKept (e : EPUBOptions) (img : EPUBImage) : Prop :=
  ~ (NoBlankImage (ImageOf e) = true /\ IsBlank img = true).

#[export] Instance isKept_dec e img : Decision (isKept e img).
Proof. unfold isKept. apply _. Defined.

Definition wholePages (out : list EPUBImage) : list EPUBImage :=
  filter (fun img => Part img = 0) out.

(** The run is over: the process has exited or every worker has. *)
Definition finished (p : pool) : Prop :=
  fatal p <> None \/ poolDone p = true.

(** *** Notions used in the further properties of the pool *)

(** The paths a list of actions stores, in order, and those a worker has
    still to store for its current task. *)
Definition stores (acts : list action) : list string :=
  flat_map (fun a => match a with Store _ img => [EPUBImgPath img] | _ => [] end)
           acts.

Definition storing (w : option (list action)) : list string :=
  match w with Some acts => stores acts | None => [] end.

(** The images the pool is to store for one task, as they are transformed
    (their buffers are released only afterwards). *)
Definition persisted (e : EPUBOptions) (nt : nat * task) : list EPUBImage :=
  (if decide (isWithheld e nt.2 (part0 e nt)) then [] else [part0 e nt])
  ++ (if decide (isSplit e nt.2 (part0 e nt))
      then [half e nt 1; half e nt 2] else []).

(** Every path the pool is to store has been written, is pending in a
    worker or belongs to a task still in the queue. *)
Definition poolStoreInv (e : EPUBOptions) (tasks : list task) (p : pool) : Prop :=
  written p ++ flat_map storing (workers p)
    ++ flat_map (fun nt => stores (workerBody e nt)) (queue p)
    ≡ₚ flat_map (fun nt => stores (workerBody e nt)) (indexed tasks).

(** In what is left of a worker's body, and in every tail of it, there are
    at least as many images to send as to store: an image is stored before
    it is sent. *)
Fixpoint storedFirst (acts : list action) : Prop :=
  match acts with
  | [] => True
  | a :: rest =>
      (length (stores (a :: rest)) <= length (sends (a :: rest)))%nat
      /\ storedFirst rest
  end.

(** The names under which a list of actions stores are names of tasks. *)
Definition storesNamed (tasks : list task) (acts : list action) : Prop :=
  forall name img, Store name img ∈ acts ->
    exists t, t ∈ tasks /\ name = Name t.

(** The message of [utils.Fatalf] in a worker names a task. *)
Definition namesTask (tasks : list task) (msg : string) : Prop :=
  exists t err, t ∈ tasks
                /\ msg = "error with " +:+ Name t +:+ ": " +:+ err.

Definition isCropSplit (f : Filter) : bool :=
  match f with CropSplitDoublePage _ => true | _ => false end.

Definition isRotate (f : Filter) : bool :=
  match f with Rotate90 => true | _ => false end.

(** The identity of a page: source index and part. *)
Definition idPart (img : EPUBImage) : Z * Z := (epubimage.Id img, Part img).

(** The size the crop filter of [transformImage] gives for the source, on
    which the blank test is made. *)
Definition cropSize (e : EPUBOptions) (input : task) (part : Z) (right : bool)
  : Rectangle :=
  let o := ImageOf e in
  let src := Image input in
  let g := addIf ((part >? 0) && negb (KeepSplitDoublePageAspect o)) New
             (CropSplitDoublePage right) in
  FilterBounds
    (AutoCrop src (GIFT_Bounds g (Bounds src))
       (Left (Crop o)) (Up (Crop o)) (Right (Crop o))
       (Bottom (Crop o)) (Limit (Crop o)) (SkipIfLimitReached (Crop o)))
    (Bounds src).

End WithStorage.
End WithFilters.
End epubimageprocessor.

(** ** Sample implementations and inputs

    The functions above are parametric in the resource names of a page, in
    the bounds of the filters and in the storage writer.  The instances
    below serve to evaluate them on concrete inputs. *)

Module samples.
Import image epuboptions epubimage.

Definition keyOf (prefix : string) (img : EPUBImage) : string :=
  prefix +:+ "_" +:+ pretty (Id img) +:+ "_p" +:+ pretty (Part img).

#[export] Instance keys : Keys := {|
  ImgKey := keyOf "img";
  ImgPath := fun img => "Images/" +:+ keyOf "img" img +:+ "." +:+ Format img;
  MediaType := fun img => "image/" +:+ Format img;
  PageKey := keyOf "page";
  PagePath := fun img => "Text/" +:+ keyOf "page" img +:+ ".xhtml";
  SpaceKey := fun img => "space_" +:+ pretty (Id img);
  SpacePath := fun img => "Text/space_" +:+ pretty (Id img) +:+ ".xhtml";
  EPUBImgPath := fun img => "OEBPS/Images/" +:+ keyOf "img" img +:+ "." +:+ Format img
|}.

(** Bounds of the filters: a split keeps one half, the crop cuts the
    configured margins off the rectangle it was built for, a rotation
    swaps the sides, the last filter turns an empty rectangle into one
    pixel; the other filters keep the bounds. *)
Definition filterBounds (f : gift.Filter) (r : Rectangle) : Rectangle :=
  match f with
  | gift.CropSplitDoublePage _ => Rect 0 0 (Dx r / 2) (Dy r)
  | gift.AutoCrop _ b l u rt bt _ _ =>
      Rect 0 0 (Z.max 0 (Dx b - l - rt)) (Z.max 0 (Dy b - u - bt))
  | gift.Rotate90 => Rect 0 0 (Dy r) (Dx r)
  | gift.Pixel => if (Dx r =? 0) || (Dy r =? 0) then Rect 0 0 1 1 else r
  | _ => r
  end.

#[export] Instance filters : gift.Filters := {| gift.FilterBounds := filterBounds |}.

(** A storage writer that accepts every image. *)
#[export] Instance storage : epubzip.Storage :=
  {| epubzip.StorageAdd := fun _ _ _ _ => None |}.

(** A storage writer that refuses every image. *)
Definition fullStorage : epubzip.Storage :=
  {| epubzip.StorageAdd := fun _ _ _ _ => Some "disk full" |}.

Definition view : ViewOpts :=
  {| epuboptions.Width := 1200; epuboptions.Height := 1920;
     PortraitOnly := false |}.

Definition noCrop : CropOpts :=
  {| Enabled := false; Left := 0; Up := 0; Right := 0; Bottom := 0;
     Limit := 0; SkipIfLimitReached := false |}.

(** Image options with everything switched off, for a given reading
    direction and reader compatibility. *)
Definition imageOpts (manga apple : bool) : ImageOpts :=
  {| Crop := noCrop; Quality := 85; Brightness := 0; Contrast := 0;
     AutoContrast := false; AutoRotate := false; AutoSplitDoublePage := false;
     KeepDoublePageIfSplit := true; KeepSplitDoublePageAspect := true;
     NoBlankImage := false; Manga := manga; HasCover := true; View := view;
     GrayScale := false; GrayScaleMode := 0; Resize := false;
     epuboptions.Format := "jpeg"; AppleBookCompatibility := apple |}.

(** A page of 600 x 1000 (or, when double, of 1200 x 1000). *)
Definition page (id part : Z) (double : bool) : EPUBImage :=
  {| Id := id; Part := part; Raw := None;
     epubimage.Width := if double then 1200 else 600;
     epubimage.Height := 1000; IsBlank := false; DoublePage := double;
     Path := ""; Name := "page" +:+ pretty id; Format := "jpeg";
     OriginalAspectRatio :=
       f64.div (f64.of_int 1000) (f64.of_int (if double then 1200 else 600));
     Error := None; Position := "" |}.

Definition content (manga apple title : bool) (imgs : list EPUBImage)
  : epubtemplates.Content :=
  {| epubtemplates.Title := "sample"; epubtemplates.HasTitlePage := title;
     epubtemplates.UID := "0"; epubtemplates.Author := "";
     epubtemplates.Publisher := ""; epubtemplates.UpdatedAt := "";
     epubtemplates.ImageOptions := imageOpts manga apple;
     epubtemplates.Cover := page 0 0 false;
     epubtemplates.Images := imgs;
     epubtemplates.Current := 1; epubtemplates.Total := 1 |}.

(** A manga book: a single page, the two halves of a split page, a double
    page and a single page. *)
Definition splitBook : epubtemplates.Content :=
  content true false false
    [page 1 0 false; page 2 1 false; page 2 2 false; page 3 0 true;
     page 4 0 false].

(** A manga book of five single pages. *)
Definition singles5 : epubtemplates.Content :=
  content true false false
    [page 1 0 false; page 2 0 false; page 3 0 false; page 4 0 false;
     page 5 0 false].

(** A book of one single page. *)
Definition oneSingle : epubtemplates.Content :=
  content false false false [page 1 0 false].

(** A white picture of the given size, and the task that carries it. *)
Definition picture (w h : Z) : gift.Image :=
  {| gift.ImgKind := NRGBA; gift.Bounds := Rect 0 0 w h;
     gift.At := fun _ _ => (65535, 65535, 65535, 65535) |}.

Definition pageTask (id w h : Z) : epubimageprocessor.task :=
  {| epubimageprocessor.Id := id; epubimageprocessor.Image := picture w h;
     epubimageprocessor.Path := "book";
     epubimageprocessor.Name := "page" +:+ pretty id;
     epubimageprocessor.Error := None |}.

(** Image options for the pipeline: a crop, the two flags of the split and
    the removal of blank pages; the rest is switched off. *)
Definition processing (crop : CropOpts) (split keep noBlank : bool) : ImageOpts :=
  {| Crop := crop; Quality := 85; Brightness := 0; Contrast := 0;
     AutoContrast := false; AutoRotate := false; AutoSplitDoublePage := split;
     KeepDoublePageIfSplit := keep; KeepSplitDoublePageAspect := true;
     NoBlankImage := noBlank; Manga := false; HasCover := true; View := view;
     GrayScale := false; GrayScaleMode := 0; Resize := false;
     epuboptions.Format := "jpeg"; AppleBookCompatibility := false |}.

Definition options (img : ImageOpts) (dry : bool) : EPUBOptions :=
  {| Image := img; Dry := dry; Quiet := true; Json := false |}.

(** Split double pages and drop the unsplit page. *)
Definition splitting : EPUBOptions :=
  options (processing noCrop true false false) false.

(** Cut 300 pixels off the left and off the right. *)
Definition cropping : EPUBOptions :=
  options (processing
             {| Enabled := true; Left := 300; Up := 0; Right := 300;
                Bottom := 0; Limit := 0; SkipIfLimitReached := false |}
             false true false) false.

(** Remove blank pages; with the sample crop a page of 600 x 1000 is
    wholly margin. *)
Definition noBlank : EPUBOptions :=
  options (processing
             {| Enabled := false; Left := 600; Up := 1000; Right := 0;
                Bottom := 0; Limit := 0; SkipIfLimitReached := false |}
             false true true) false.

(** Rotate double pages. *)
Definition rotating : EPUBOptions :=
  {| Image :=
       {| Crop := noCrop; Quality := 85; Brightness := 0; Contrast := 0;
          AutoContrast := false; AutoRotate := true;
          AutoSplitDoublePage := false; KeepDoublePageIfSplit := true;
          KeepSplitDoublePageAspect := true; NoBlankImage := false;
          Manga := false; HasCover := true; View := view;
          GrayScale := false; GrayScaleMode := 0; Resize := false;
          epuboptions.Format := "jpeg"; AppleBookCompatibility := false |};
     Dry := false; Quiet := true; Json := false |}.

Definition dry : EPUBOptions :=
  options (processing noCrop true false false) true.

(** A cover of 1200 x 1000, a page of 600 x 1000, a page of 1200 x 1000. *)
Definition threeTasks : list epubimageprocessor.task :=
  [pageTask 0 1200 1000; pageTask 1 600 1000; pageTask 2 1200 1000].

(** [WorkersRatio] for two processors: the percentage of them, at least
    one. *)
Definition workersRatio (pct : Z) : Z := Z.max 1 (2 * pct / 100).

(** Two workers taking turns. *)
Definition turns (n : nat) : list nat :=
  flat_map (fun _ => [0%nat; 1%nat]) (seq 0 n).

(** Sample conversions for the metadata. *)
#[export] Instance formatting : epubtemplates.Formatting := {|
  epubtemplates.Dimension := fun v =>
    pretty (epuboptions.Width v) +:+ "x" +:+ pretty (epuboptions.Height v);
  epubtemplates.IntToString := fun n => pretty n
|}.

(** A manga book with a title page: a single page and a double page. *)
Definition titledBook : epubtemplates.Content :=
  content true false true [page 1 0 false; page 2 0 true].

(** A book in reader-compatibility mode, without title page and without
    pages. *)
Definition emptyCompat : epubtemplates.Content :=
  content false true false [].

(** A portrait-only book with a title page. *)
Definition portraitBook : epubtemplates.Content :=
  {| epubtemplates.Title := "sample"; epubtemplates.HasTitlePage := true;
     epubtemplates.UID := "0"; epubtemplates.Author := "";
     epubtemplates.Publisher := ""; epubtemplates.UpdatedAt := "";
     epubtemplates.ImageOptions :=
       {| Crop := noCrop; Quality := 85; Brightness := 0; Contrast := 0;
          AutoContrast := false; AutoRotate := false;
          AutoSplitDoublePage := false; KeepDoublePageIfSplit := true;
          KeepSplitDoublePageAspect := true; NoBlankImage := false;
          Manga := false; HasCover := true;
          View := {| epuboptions.Width := 1200; epuboptions.Height := 1920;
                     PortraitOnly := true |};
          GrayScale := false; GrayScaleMode := 0; Resize := false;
          epuboptions.Format := "jpeg"; AppleBookCompatibility := false |};
     epubtemplates.Cover := page 0 0 false;
     epubtemplates.Images := [page 1 0 false; page 2 0 true];
     epubtemplates.Current := 1; epubtemplates.Total := 1 |}.

(** A book whose split pages replace the double page: a single page, the
    two halves, a single page. *)
Definition halvesBook : epubtemplates.Content :=
  {| epubtemplates.Title := "sample"; epubtemplates.HasTitlePage := true;
     epubtemplates.UID := "0"; epubtemplates.Author := "";
     epubtemplates.Publisher := ""; epubtemplates.UpdatedAt := "";
     epubtemplates.ImageOptions :=
       {| Crop := noCrop; Quality := 85; Brightness := 0; Contrast := 0;
          AutoContrast := false; AutoRotate := false;
          AutoSplitDoublePage := true; KeepDoublePageIfSplit := false;
          KeepSplitDoublePageAspect := true; NoBlankImage := false;
          Manga := false; HasCover := true; View := view;
          GrayScale := false; GrayScaleMode := 0; Resize := false;
          epuboptions.Format := "jpeg"; AppleBookCompatibility := false |};
     epubtemplates.Cover := page 0 0 false;
     epubtemplates.Images :=
       [page 1 0 false; page 2 1 false; page 2 2 false; page 3 0 false];
     epubtemplates.Current := 2; epubtemplates.Total := 3 |}.

(** The results of [getSpineAuto] and [getManifest] on a sample. *)
Definition spineOf (o : epubtemplates.Content) : list epubtemplates.tag :=
  from_option fst [] (epubtemplates.getSpineAuto o).
Definition imagesOf (o : epubtemplates.Content) : list EPUBImage :=
  from_option snd [] (epubtemplates.getSpineAuto o).
Definition manifestOf (o : epubtemplates.Content) : list epubtemplates.tag :=
  default [] (epubtemplates.getManifest o).

End samples.

(** * Properties *)

(** ** The spine and the manifest of [content.go] *)

Module content_props.
Import epubimage epubtemplates.

Lemma positions_distinct : center <> right /\ center <> left /\ right <> left.
Proof. repeat split; discriminate. Qed.

Lemma getSpread_double (o : Content) (r : bool) :
  getSpread o true r = (center, negb (Manga o)).
Proof. reflexivity. Qed.

Lemma getSpread_single (o : Content) (r : bool) :
  getSpread o false r = (if negb r then right else left, negb r).
Proof. unfold getSpread. destruct r; reflexivity. Qed.

Lemma getSpreadBlank_eq (o : Content) (r : bool) :
  getSpreadBlank o r =
  ((if negb r then right else left) +:+ " layout-blank", negb r).
Proof. unfold getSpreadBlank. rewrite getSpread_single. reflexivity. Qed.

Section WithKeys.
Context {keys : Keys}.

Lemma needsSpacer_iff (o : Content) (img : EPUBImage) (r : bool) :
  needsSpacer o img r = true <->
  (DoublePage img = true \/ Part img = 1) /\ Manga o = r.
Proof.
  unfold needsSpacer.
  rewrite andb_true_iff, orb_true_iff, Z.eqb_eq, eqb_true_iff.
  reflexivity.
Qed.

Lemma spacerBefore_eq (o : Content) (img : EPUBImage) (r : bool) :
  spacerBefore o img r =
  if needsSpacer o img r
  then ([itemrefProps (SpaceKey img)
           ((if Manga o then left else right) +:+ " layout-blank")],
        negb (Manga o))
  else ([], r).
Proof.
  unfold spacerBefore. destruct (needsSpacer o img r) eqn:E; [|reflexivity].
  apply needsSpacer_iff in E as [_ <-].
  rewrite getSpreadBlank_eq. destruct (Manga o); reflexivity.
Qed.

(** Before a double page or a first half, the spacer (or its absence)
    leaves the state at the negation of the manga flag. *)
Lemma spacerBefore_aligns (o : Content) (img : EPUBImage) (r : bool) :
  DoublePage img = true \/ Part img = 1 ->
  (spacerBefore o img r).2 = negb (Manga o).
Proof.
  intros Hd. rewrite spacerBefore_eq.
  destruct (needsSpacer o img r) eqn:E; [reflexivity|]. simpl.
  destruct (Bool.eqb (Manga o) r) eqn:Er.
  - exfalso. apply not_true_iff_false in E. apply E.
    apply needsSpacer_iff. split; [assumption|]. by apply eqb_prop.
  - apply eqb_false_iff in Er. destruct (Manga o), r; simpl; congruence.
Qed.

Lemma spacerBefore_single (o : Content) (img : EPUBImage) (r : bool) :
  DoublePage img = false -> Part img <> 1 -> spacerBefore o img r = ([], r).
Proof.
  intros Hd Hp. rewrite spacerBefore_eq.
  destruct (needsSpacer o img r) eqn:E; [|reflexivity].
  apply needsSpacer_iff in E as [[?|?] _]; congruence.
Qed.

Lemma spineIter_eq (o : Content) (st : spineState) (i : nat) (img : EPUBImage) :
  spineIter o st i img =
  let b := spacerBefore o img (isOnTheRight st) in
  let p := placePage o img b.2 in
  {| isOnTheRight := p.2;
     spine := (spine st ++ b.1) ++ [itemrefProps (PageKey p.1) (Position p.1)];
     images := <[i := p.1]> (images st) |}.
Proof.
  unfold spineIter. destruct (spacerBefore o img (isOnTheRight st)) as [b r].
  simpl. destruct (placePage o img r) as [img' r']. reflexivity.
Qed.

Lemma spineRange_app (o : Content) (l1 l2 : list EPUBImage) :
  forall (st : spineState) (i : nat),
    spineRange o st i (l1 ++ l2) =
    spineRange o (spineRange o st i l1) (i + length l1)%nat l2.
Proof.
  induction l1 as [|img l1 IH]; intros st i; simpl.
  - by rewrite Nat.add_0_r.
  - rewrite IH. f_equal. lia.
Qed.

Lemma spineRange_length (o : Content) (rest : list EPUBImage) :
  forall (st : spineState) (i : nat),
    length (images (spineRange o st i rest)) = length (images st).
Proof.
  induction rest as [|img rest IH]; intros st i; simpl; [reflexivity|].
  rewrite IH, spineIter_eq. simpl. apply length_insert.
Qed.

(** The loop from index [i] on does not touch the entries below [i]. *)
Lemma spineRange_below (o : Content) (rest : list EPUBImage) :
  forall (st : spineState) (i k : nat),
    (k < i)%nat ->
    images (spineRange o st i rest) !! k = images st !! k.
Proof.
  induction rest as [|img rest IH]; intros st i k Hk; simpl; [reflexivity|].
  rewrite IH by lia. rewrite spineIter_eq. simpl.
  apply list_lookup_insert_ne. lia.
Qed.

Lemma spineRange_prefix (o : Content) (rest : list EPUBImage) :
  forall (st : spineState) (i : nat),
    spine st `prefix_of` spine (spineRange o st i rest).
Proof.
  induction rest as [|img rest IH]; intros st i; simpl; [reflexivity|].
  etrans; [|apply IH]. rewrite spineIter_eq. simpl.
  rewrite <- app_assoc. by apply prefix_app_r.
Qed.

Lemma loopAfter_0 (o : Content) : loopAfter o 0 = spineTitle o.
Proof. reflexivity. Qed.

Lemma loopAfter_S (o : Content) (k : nat) (img : EPUBImage) :
  Images o !! k = Some img ->
  loopAfter o (S k) = spineIter o (loopAfter o k) k img.
Proof.
  intros H. unfold loopAfter. rewrite (take_S_r _ _ _ H).
  rewrite spineRange_app. simpl. f_equal.
  rewrite length_take. apply lookup_lt_Some in H. lia.
Qed.

Lemma loopAfter_all (o : Content) :
  loopAfter o (length (Images o)) = spineRange o (spineTitle o) 0 (Images o).
Proof. unfold loopAfter. by rewrite firstn_all. Qed.

Lemma spineTitle_images (o : Content) : images (spineTitle o) = Images o.
Proof.
  unfold spineTitle.
  destruct (HasTitlePage o); [|reflexivity].
  destruct (negb (AppleBookCompatibility o)).
  - rewrite getSpreadBlank_eq, getSpread_single. reflexivity.
  - reflexivity.
Qed.

Lemma loopAfter_length (o : Content) (k : nat) :
  length (images (loopAfter o k)) = length (Images o).
Proof. unfold loopAfter. by rewrite spineRange_length, spineTitle_images. Qed.

Lemma carriedState_S (o : Content) (k : nat) (img : EPUBImage) :
  Images o !! k = Some img ->
  carriedState o (S k) = (placed o k img).2.
Proof.
  intros H. unfold carriedState. rewrite (loopAfter_S _ _ _ H), spineIter_eq.
  reflexivity.
Qed.

Lemma spineUpTo_S (o : Content) (k : nat) (img : EPUBImage) :
  Images o !! k = Some img ->
  spineUpTo o (S k) =
  (spineUpTo o k ++ (spacerBefore o img (carriedState o k)).1)
  ++ [itemrefProps (PageKey (placed o k img).1) (Position (placed o k img).1)].
Proof.
  intros H. unfold spineUpTo. rewrite (loopAfter_S _ _ _ H), spineIter_eq.
  reflexivity.
Qed.

(** What [getSpineAuto] returns, when it returns. *)
Lemma getSpineAuto_Some (o : Content) (sp : list tag) (imgs' : list EPUBImage) :
  getSpineAuto o = Some (sp, imgs') ->
  imgs' = images (loopAfter o (length (Images o)))
  /\ spineUpTo o (length (Images o)) `prefix_of` sp.
Proof.
  unfold getSpineAuto, spineUpTo. rewrite loopAfter_all.
  set (st := spineRange o (spineTitle o) 0 (Images o)).
  destruct (Bool.eqb (Manga o) (isOnTheRight st)).
  - destruct (last (images st)) as [l|]; [|discriminate].
    rewrite getSpread_single. intros [= <- <-]. split; [reflexivity|].
    by apply prefix_app_r.
  - intros [= <- <-]. split; reflexivity.
Qed.

Lemma getSpineAuto_image (o : Content) (sp : list tag) (imgs' : list EPUBImage)
    (k : nat) (img : EPUBImage) :
  getSpineAuto o = Some (sp, imgs') ->
  Images o !! k = Some img ->
  imgs' !! k = Some (placed o k img).1.
Proof.
  intros Hs Hk. apply getSpineAuto_Some in Hs as [-> _].
  rewrite loopAfter_all.
  pose proof (spineRange_app o (take k (Images o)) (img :: drop (S k) (Images o))
                (spineTitle o) 0) as E.
  rewrite (take_drop_middle _ _ _ Hk) in E. rewrite E. clear E.
  assert (length (take k (Images o)) = k) as ->.
  { rewrite length_take. apply lookup_lt_Some in Hk. lia. }
  simpl. rewrite spineRange_below by lia.
  fold (loopAfter o k). rewrite spineIter_eq. simpl.
  apply list_lookup_insert_eq. rewrite loopAfter_length.
  by apply lookup_lt_Some in Hk.
Qed.

Lemma getSpineAuto_prefix (o : Content) (sp : list tag) (imgs' : list EPUBImage)
    (k : nat) :
  getSpineAuto o = Some (sp, imgs') -> spineUpTo o k `prefix_of` sp.
Proof.
  intros Hs. apply getSpineAuto_Some in Hs as [_ Hp].
  etrans; [|exact Hp]. unfold spineUpTo. rewrite loopAfter_all.
  unfold loopAfter.
  pose proof (spineRange_app o (take k (Images o)) (drop k (Images o))
                (spineTitle o) 0) as E.
  rewrite take_drop in E. rewrite E. apply spineRange_prefix.
Qed.

(** [getSpineAuto] does not panic on a list with a page. *)
Lemma getSpineAuto_total (o : Content) :
  Images o <> [] -> is_Some (getSpineAuto o).
Proof.
  intros Hne. unfold getSpineAuto.
  set (st := spineRange o (spineTitle o) 0 (Images o)).
  destruct (Bool.eqb (Manga o) (isOnTheRight st)); [|by eexists].
  destruct (last (images st)) as [l|] eqn:El.
  - rewrite getSpread_single. by eexists.
  - apply last_None in El. apply (f_equal length) in El.
    unfold st in El. rewrite spineRange_length, spineTitle_images in El.
    destruct (Images o); [congruence|discriminate].
Qed.

(** Outside portrait mode the spine of [String] is that of [getSpineAuto]. *)
Lemma String_spine_auto (o : Content) :
  PortraitOnly o = false -> String_spine o = getSpineAuto o.
Proof. intros H. unfold String_spine. by rewrite H. Qed.

(** C1 (amended).  In [getSpineAuto], a page flagged as a double page is
    placed at the centre and leaves [isOnTheRight] at the negation of the
    manga flag.  A first half of a split page (part 1, not flagged double)
    is not centred: it is placed on the right in manga mode and on the left
    otherwise, and leaves [isOnTheRight] equal to the manga flag. *)
Theorem getSpineAuto_double_and_first_half (o : Content) (sp : list tag)
    (imgs' : list EPUBImage) (k : nat) (img : EPUBImage) :
  getSpineAuto o = Some (sp, imgs') ->
  Images o !! k = Some img ->
  exists img',
    imgs' !! k = Some img'
    /\ (DoublePage img = true ->
        Position img' = center /\ carriedState o (S k) = negb (Manga o))
    /\ (DoublePage img = false -> Part img = 1 ->
        Position img' = (if Manga o then right else left)
        /\ carriedState o (S k) = Manga o).
Proof.
  intros Hs Hk. exists (placed o k img).1.
  split; [by eapply getSpineAuto_image|].
  rewrite (carriedState_S _ _ _ Hk). unfold placed, placePage.
  split.
  - intros Hd. rewrite Hd, getSpread_double. split; reflexivity.
  - intros Hd Hp. rewrite Hd, spacerBefore_aligns by (by right).
    rewrite getSpread_single, negb_involutive. split; reflexivity.
Qed.

(** C3 (amended).  In [getSpineAuto], the loop appends a spacer entry just
    before the entry of a page exactly when the page is a double page or
    has part 1 and the manga flag equals [isOnTheRight]; the spacer is
    marked blank and placed on the left in manga mode and on the right
    otherwise, never at the centre. *)
Theorem getSpineAuto_spacer (o : Content) (sp : list tag)
    (imgs' : list EPUBImage) (k : nat) (img : EPUBImage) :
  getSpineAuto o = Some (sp, imgs') ->
  Images o !! k = Some img ->
  let side := if Manga o then left else right in
  let blank := itemrefProps (SpaceKey img) (side +:+ " layout-blank") in
  spineUpTo o (S k) `prefix_of` sp
  /\ side <> center
  /\ attrs blank !! "properties" = Some (side +:+ " layout-blank")
  /\ exists img',
      imgs' !! k = Some img'
      /\ let page := itemrefProps (PageKey img') (Position img') in
         (((DoublePage img = true \/ Part img = 1)
           /\ Manga o = carriedState o k) ->
          spineUpTo o (S k) = spineUpTo o k ++ [blank; page])
         /\ (~ ((DoublePage img = true \/ Part img = 1)
                /\ Manga o = carriedState o k) ->
             spineUpTo o (S k) = spineUpTo o k ++ [page]).
Proof.
  intros Hs Hk side blank.
  split; [by eapply getSpineAuto_prefix|].
  split; [unfold side; destruct (Manga o); discriminate|].
  split.
  { unfold blank, itemrefProps. simpl.
    rewrite lookup_insert_ne by discriminate. apply lookup_singleton_eq. }
  exists (placed o k img).1.
  split; [by eapply getSpineAuto_image|].
  intros page. rewrite (spineUpTo_S _ _ _ Hk), spacerBefore_eq.
  split; intros Hc.
  - apply needsSpacer_iff in Hc. rewrite Hc. simpl.
    by rewrite <- app_assoc.
  - rewrite <- needsSpacer_iff in Hc. apply not_true_is_false in Hc.
    rewrite Hc. simpl. by rewrite app_nil_r.
Qed.

(** A run of single pages toggles the state once per page. *)
Lemma carriedState_run (o : Content) (k n : nat) :
  (forall j img, (j < n)%nat -> Images o !! (k + j)%nat = Some img ->
                 DoublePage img = false /\ Part img = 0) ->
  forall j, (j <= n)%nat -> (k + j <= length (Images o))%nat ->
    carriedState o (k + j) = xorb (carriedState o k) (Nat.odd j).
Proof.
  intros Hrun. induction j as [|j IH]; intros Hj Hlen.
  - rewrite Nat.add_0_r. by destruct (carriedState o k).
  - destruct (lookup_lt_is_Some_2 (Images o) (k + j)%nat) as [img Himg]; [lia|].
    destruct (Hrun j img) as [Hd Hp]; [lia|assumption|].
    replace (k + S j)%nat with (S (k + j)) by lia.
    rewrite (carriedState_S _ _ _ Himg). unfold placed, placePage.
    rewrite spacerBefore_single by (assumption || lia). simpl.
    rewrite Hd, getSpread_single. simpl.
    rewrite IH by lia. rewrite Nat.odd_succ, <- Nat.negb_odd.
    by destruct (carriedState o k), (Nat.odd j).
Qed.

(** C4.  The initial value of [isOnTheRight] is the negation of the manga
    flag, inverted once more in reader-compatibility mode; without a title
    page the loop starts from it; over a run of single pages (not double,
    part 0) the positions alternate between right and left, starting from
    the side opposite to the state at the start of the run; in manga mode
    without compatibility and without a title page, a book of single pages
    gets right, left, right, left, ... *)
Theorem getSpineAuto_alternates (o : Content) (sp : list tag)
    (imgs' : list EPUBImage) (k n : nat) :
  getSpineAuto o = Some (sp, imgs') ->
  (forall j img, (j < n)%nat -> Images o !! (k + j)%nat = Some img ->
                 DoublePage img = false /\ Part img = 0) ->
  initialIsOnTheRight o = xorb (negb (Manga o)) (AppleBookCompatibility o)
  /\ (initialIsOnTheRight o = true <->
      (Manga o = false <-> AppleBookCompatibility o = false))
  /\ (HasTitlePage o = false -> carriedState o 0 = initialIsOnTheRight o)
  /\ (forall j img', (j < n)%nat -> imgs' !! (k + j)%nat = Some img' ->
        Position img' =
        if xorb (carriedState o k) (Nat.even j) then right else left)
  /\ (Manga o = true -> AppleBookCompatibility o = false ->
      HasTitlePage o = false -> k = 0%nat ->
      forall j img', (j < n)%nat -> imgs' !! j = Some img' ->
        Position img' = if Nat.even j then right else left).
Proof.
  intros Hs Hrun.
  assert (Hinit : initialIsOnTheRight o
                  = xorb (negb (Manga o)) (AppleBookCompatibility o)).
  { unfold initialIsOnTheRight.
    by destruct (Manga o), (AppleBookCompatibility o). }
  assert (Hstart : HasTitlePage o = false ->
                   carriedState o 0 = initialIsOnTheRight o).
  { intros Ht. unfold carriedState. rewrite loopAfter_0. unfold spineTitle.
    by rewrite Ht. }
  assert (Halt : forall j img', (j < n)%nat -> imgs' !! (k + j)%nat = Some img' ->
            Position img' =
            if xorb (carriedState o k) (Nat.even j) then right else left).
  { intros j img' Hj Hl.
    assert (Hlen : (k + j < length (Images o))%nat).
    { apply lookup_lt_Some in Hl.
      apply getSpineAuto_Some in Hs as [-> _].
      by rewrite loopAfter_length in Hl. }
    destruct (lookup_lt_is_Some_2 (Images o) (k + j)%nat Hlen) as [img Himg].
    destruct (Hrun j img Hj Himg) as [Hd Hp].
    rewrite (getSpineAuto_image _ _ _ _ _ Hs Himg) in Hl.
    injection Hl as <-. unfold placed, placePage.
    rewrite spacerBefore_single by (assumption || lia). simpl.
    rewrite Hd, getSpread_single. simpl.
    rewrite (carriedState_run o k n Hrun j) by lia.
    rewrite <- Nat.negb_odd.
    by destruct (carriedState o k), (Nat.odd j). }
  split; [exact Hinit|]. split.
  { rewrite Hinit. destruct (Manga o), (AppleBookCompatibility o); simpl;
      intuition congruence. }
  split; [exact Hstart|]. split; [exact Halt|].
  intros Hm Ha Ht -> j img' Hj Hl.
  rewrite (Halt j img' Hj Hl), (Hstart Ht), Hinit, Hm, Ha. simpl.
  by destruct (Nat.even j).
Qed.

Lemma manifestLoop_eq (o : Content) (lastImage : EPUBImage) (l : list EPUBImage) :
  forall acc,
    foldl (fun acc img => addTag acc img (withSpace o lastImage img)) acc l =
    {| imageTags := imageTags acc ++ map imageItem l;
       pageTags := pageTags acc ++ map pageItem l;
       spaceTags := spaceTags acc ++
         map spaceItem (filter (fun img => withSpace o lastImage img = true) l) |}.
Proof.
  induction l as [|img l IH]; intros acc; simpl.
  - rewrite !app_nil_r. by destruct acc.
  - rewrite IH. unfold addTag. simpl.
    destruct (withSpace o lastImage img) eqn:E.
    + rewrite filter_cons_True by assumption. simpl.
      by rewrite <- !app_assoc.
    + rewrite filter_cons_False by congruence.
      by rewrite <- !app_assoc.
Qed.

(** C8 (amended).  In the manifest of [getManifest], the spacer items are
    those of the images of [spacedImages], after the image and page items
    of all images; an image has a spacer item only outside portrait mode,
    and only if it is a double page, or a first half (part 1) while
    keep-double-page-if-split is off, or a part-0 page equal to the last
    image of the list. *)
Theorem getManifest_spacers (o : Content) (items : list tag) :
  getManifest o = Some items ->
  items = manifestHead o ++ map imageItem (Images o)
          ++ map pageItem (Images o) ++ map spaceItem (spacedImages o)
  /\ forall img, img ∈ spacedImages o ->
       PortraitOnly o = false
       /\ (DoublePage img = true
           \/ (KeepDoublePageIfSplit o = false /\ Part img = 1)
           \/ (Part img = 0
               /\ exists lastImage, last (Images o) = Some lastImage
                                    /\ eqb img lastImage = true)).
Proof.
  unfold getManifest, spacedImages.
  destruct (last (Images o)) as [lastImage|] eqn:El; [|discriminate].
  intros [= <-]. unfold manifestLoop. rewrite manifestLoop_eq. simpl.
  split; [reflexivity|].
  intros img Hin. apply list_elem_of_filter in Hin as [Hw _].
  unfold withSpace in Hw.
  apply andb_true_iff in Hw as [Hp Hw]. apply negb_true_iff in Hp.
  split; [exact Hp|].
  apply orb_true_iff in Hw as [Hw|Hw]; [apply orb_true_iff in Hw as [Hw|Hw]|].
  - by left.
  - apply andb_true_iff in Hw as [Hk Hw]. apply negb_true_iff in Hk.
    apply Z.eqb_eq in Hw. right; left. by split.
  - apply andb_true_iff in Hw as [Hw He]. apply Z.eqb_eq in Hw.
    right; right. split; [assumption|]. by exists lastImage.
Qed.

End WithKeys.
End content_props.

(** *** The spine and the manifest on the samples *)

Module content_examples.
Import epubimage epubtemplates content_props samples.

Lemma getSpineAuto_double_and_first_half_witness :
  getSpineAuto splitBook = Some (spineOf splitBook, imagesOf splitBook)
  /\ Images splitBook !! 1%nat = Some (page 2 1 false)
  /\ exists img',
      imagesOf splitBook !! 1%nat = Some img'
      /\ (DoublePage (page 2 1 false) = true ->
          Position img' = center
          /\ carriedState splitBook 2 = negb (Manga splitBook))
      /\ (DoublePage (page 2 1 false) = false -> Part (page 2 1 false) = 1 ->
          Position img' = (if Manga splitBook then right else left)
          /\ carriedState splitBook 2 = Manga splitBook).
Proof.
  assert (H : getSpineAuto splitBook
              = Some (spineOf splitBook, imagesOf splitBook))
    by (vm_compute; reflexivity).
  split; [exact H|]. split; [reflexivity|].
  apply (getSpineAuto_double_and_first_half splitBook (spineOf splitBook)
           (imagesOf splitBook) 1 (page 2 1 false) H).
  reflexivity.
Defined.

(** C1 as stated fails: in the manga sample, the first half of the split
    page (index 1, part 1) is placed on the right, not at the centre. *)
Lemma first_half_is_not_centered :
  Images splitBook !! 1%nat = Some (page 2 1 false)
  /\ Part (page 2 1 false) = 1
  /\ getSpineAuto splitBook = Some (spineOf splitBook, imagesOf splitBook)
  /\ map Position (imagesOf splitBook) = [right; right; left; center; right]
  /\ right <> center.
Proof.
  split; [reflexivity|]. split; [reflexivity|].
  split; [vm_compute; reflexivity|].
  split; [vm_compute; reflexivity|discriminate].
Qed.

Lemma getSpineAuto_spacer_witness :
  getSpineAuto splitBook = Some (spineOf splitBook, imagesOf splitBook)
  /\ Images splitBook !! 1%nat = Some (page 2 1 false)
  /\ spineUpTo splitBook 2 `prefix_of` spineOf splitBook
  /\ spineUpTo splitBook 2
     = spineUpTo splitBook 1
       ++ [itemrefProps "space_2" (left +:+ " layout-blank");
           itemrefProps "page_2_p1" right].
Proof.
  assert (H : getSpineAuto splitBook
              = Some (spineOf splitBook, imagesOf splitBook))
    by (vm_compute; reflexivity).
  split; [exact H|]. split; [reflexivity|].
  destruct (getSpineAuto_spacer splitBook (spineOf splitBook)
              (imagesOf splitBook) 1 (page 2 1 false) H eq_refl)
    as (Hp & _ & _ & img' & Himg & Hyes & _).
  split; [exact Hp|].
  injection Himg as <-. apply Hyes.
  split; [by right|reflexivity].
Defined.

(** C3 as stated fails: the spacer before the first half carries the left
    position with the blank marker, not the centre. *)
Lemma spacer_is_not_centered :
  getSpineAuto splitBook = Some (spineOf splitBook, imagesOf splitBook)
  /\ map (fun t => attrs t !! "properties") (spineOf splitBook)
     = [Some right; Some (left +:+ " layout-blank"); Some right; Some left;
        Some center; Some right; Some left]
  /\ map (fun t => attrs t !! "idref") (spineOf splitBook)
     = [Some "page_1_p0"; Some "space_2"; Some "page_2_p1";
        Some "page_2_p2"; Some "page_3_p0"; Some "page_4_p0";
        Some "space_4"]
  /\ left +:+ " layout-blank" <> center +:+ " layout-blank".
Proof.
  split; [vm_compute; reflexivity|].
  split; [vm_compute; reflexivity|].
  split; [vm_compute; reflexivity|discriminate].
Qed.

Lemma getSpineAuto_alternates_witness :
  map Position (imagesOf singles5) = [right; left; right; left; right]
  /\ forall j img', (j < 5)%nat -> imagesOf singles5 !! j = Some img' ->
       Position img' = if Nat.even j then right else left.
Proof.
  split; [vm_compute; reflexivity|].
  assert (H : getSpineAuto singles5
              = Some (spineOf singles5, imagesOf singles5))
    by (vm_compute; reflexivity).
  assert (Hrun : forall j img, (j < 5)%nat ->
            Images singles5 !! (0 + j)%nat = Some img ->
            DoublePage img = false /\ Part img = 0).
  { intros j img Hj Hl.
    destruct j as [|[|[|[|[|j]]]]]; try lia;
      injection Hl as <-; split; reflexivity. }
  destruct (getSpineAuto_alternates singles5 (spineOf singles5)
              (imagesOf singles5) 0 5 H Hrun) as (_ & _ & _ & _ & Hex).
  apply Hex; reflexivity.
Defined.

Lemma getManifest_spacers_witness :
  getManifest splitBook = Some (manifestOf splitBook)
  /\ spacedImages splitBook = [page 3 0 true; page 4 0 false]
  /\ manifestOf splitBook
     = manifestHead splitBook ++ map imageItem (Images splitBook)
       ++ map pageItem (Images splitBook)
       ++ map spaceItem (spacedImages splitBook).
Proof.
  assert (H : getManifest splitBook = Some (manifestOf splitBook))
    by (vm_compute; reflexivity).
  split; [exact H|]. split; [vm_compute; reflexivity|].
  exact (proj1 (getManifest_spacers splitBook (manifestOf splitBook) H)).
Defined.

(** C8 as stated fails: a book of one plain single page, outside portrait
    mode, has a spacer item for that page. *)
Lemma single_page_has_spacer :
  PortraitOnly oneSingle = false
  /\ Images oneSingle = [page 1 0 false]
  /\ DoublePage (page 1 0 false) = false
  /\ Part (page 1 0 false) = 0
  /\ spacedImages oneSingle = [page 1 0 false]
  /\ map (fun t => attrs t !! "id") (manifestOf oneSingle)
     = [Some "toc"; Some "css"; Some "page_cover"; Some "img_cover";
        Some "img_1_p0"; Some "page_1_p0"; Some "space_1"].
Proof.
  repeat split; vm_compute; reflexivity.
Qed.

End content_examples.

(** ** The transform engine and the pool of [processor.go] *)

Module processor_props.
Import image epuboptions epubimage gift epubzip epubimageprocessor.

Lemma flat_map_insert {A B : Type} (f : A -> list B) (l : list A) (i : nat)
    (x : A) :
  l !! i = Some x ->
  exists R, flat_map f l ≡ₚ f x ++ R
            /\ forall y, flat_map f (<[i := y]> l) ≡ₚ f y ++ R.
Proof.
  intros H.
  exists (flat_map f (take i l) ++ flat_map f (drop (S i) l)). split.
  - rewrite <- (take_drop_middle l i x H) at 1.
    rewrite flat_map_app. simpl.
    by rewrite !app_assoc, (Permutation_app_comm (flat_map f (take i l))).
  - intros y. rewrite insert_take_drop by (by eapply lookup_lt_Some).
    rewrite flat_map_app. simpl.
    by rewrite !app_assoc, (Permutation_app_comm (flat_map f (take i l))).
Qed.

Lemma sum_list_with_insert {A : Type} (f : A -> nat) (l : list A) (i : nat)
    (x y : A) :
  l !! i = Some x ->
  (sum_list_with f (<[i := y]> l) + f x = sum_list_with f l + f y)%nat.
Proof.
  intros H. rewrite insert_take_drop by (by eapply lookup_lt_Some).
  rewrite <- (take_drop_middle l i x H) at 3.
  rewrite !sum_list_with_app. simpl. lia.
Qed.

Section WithFilters.
Context {filters : Filters}.

Lemma transformImage_Id e input part right buf :
  epubimage.Id (transformImage e input part right buf) = Id input.
Proof. reflexivity. Qed.

Lemma transformImage_Part e input part right buf :
  Part (transformImage e input part right buf) = part.
Proof. reflexivity. Qed.

Lemma withheld_iff e input img :
  withheld e input img = true <-> isWithheld e input img.
Proof.
  unfold withheld, isWithheld.
  rewrite !andb_true_iff, negb_true_iff, Z.gtb_ltb, Z.ltb_lt. tauto.
Qed.

Lemma noSplit_iff e input img :
  epubimage.Id img = Id input ->
  noSplit e img = false <-> isSplit e input img.
Proof.
  intros Hid. unfold noSplit, isSplit. rewrite Hid.
  rewrite !orb_false_iff, !negb_false_iff, andb_false_iff.
  rewrite <- Z.eqb_eq.
  destruct (HasCover (ImageOf e)), (Id input =? 0); intuition congruence.
Qed.

Lemma sends_workerBody e nt : sends (workerBody e nt) = emitted e nt.
Proof.
  destruct nt as [n input]. unfold workerBody, emitted, sends.
  rewrite !flat_map_app. simpl.
  change (transformImage e input 0 (Manga (ImageOf e)) (bufferOf n 0))
    with (part0 e (n, input)).
  f_equal.
  - destruct (withheld e input (part0 e (n, input))) eqn:E; simpl.
    + apply withheld_iff in E. by rewrite decide_True.
    + rewrite decide_False; [reflexivity|].
      rewrite <- withheld_iff. congruence.
  - destruct (noSplit e (part0 e (n, input))) eqn:E.
    + rewrite decide_False; [reflexivity|].
      rewrite <- (noSplit_iff e input) by reflexivity. congruence.
    + apply (noSplit_iff e input) in E; [|reflexivity].
      rewrite decide_True by assumption. reflexivity.
Qed.

Lemma workerBody_length e nt : (length (workerBody e nt) <= 9)%nat.
Proof.
  destruct nt as [n input]. unfold workerBody.
  rewrite !length_app. simpl.
  destruct (negb _), (noSplit _ _); simpl; lia.
Qed.

Section WithStorage.
Context {keys : Keys} {storage : Storage}.

Lemma pending_idle_replicate (n : nat) :
  flat_map pending (replicate n (Some [])) = [].
Proof. induction n as [|n IH]; simpl; [reflexivity|exact IH]. Qed.

Lemma poolInit_inv e nworkers tasks :
  poolInv e tasks (poolInit nworkers tasks).
Proof.
  split; simpl.
  - by rewrite pending_idle_replicate.
  - intros [i Hi]. apply lookup_replicate in Hi as [Hi _]. discriminate.
Qed.

(** An action that is not a failing [Store] moves its image, if any, from
    the pending ones to the output. *)
Lemma perform_ok e p a :
  fatal p = None ->
  fatal (perform e p a) = None ->
  queue (perform e p a) = queue p
  /\ workers (perform e p a) = workers p
  /\ output (perform e p a) = output p ++ sends [a].
Proof.
  intros Hf. destruct a as [id part|name img|img]; simpl.
  - by rewrite app_nil_r.
  - destruct (StorageAdd _ _ _ _); simpl; [discriminate|].
    by rewrite app_nil_r.
  - done.
Qed.

Lemma perform_fatal e p a msg :
  fatal p = None ->
  fatal (perform e p a) = Some msg ->
  queue (perform e p a) = queue p
  /\ workers (perform e p a) = workers p
  /\ output (perform e p a) = output p.
Proof.
  intros Hf. destruct a as [id part|name img|img]; simpl.
  - congruence.
  - destruct (StorageAdd _ _ _ _); simpl; [done|congruence].
  - congruence.
Qed.

Lemma step_inv e tasks p i :
  poolInv e tasks p -> poolInv e tasks (step e p i).
Proof.
  intros [Hperm Hq]. unfold step.
  destruct (fatal p) as [msg|] eqn:Hf; [by split|].
  destruct (workers p !! i) as [[[|a acts]|]|] eqn:Hw; try by split.
  - (* the worker is idle *)
    destruct (flat_map_insert pending _ _ _ Hw) as (R & HR & HR').
    destruct (queue p) as [|nt q] eqn:Eq.
    + split; simpl; [|done].
      rewrite HR'. rewrite HR in Hperm. exact Hperm.
    + split; simpl.
      * rewrite HR'. simpl. rewrite sends_workerBody.
        rewrite HR in Hperm. simpl in Hperm.
        rewrite <- Hperm.
        rewrite (Permutation_app_comm (emitted e nt) R).
        by rewrite <- !app_assoc.
      * intros [j Hj]. destruct (decide (i = j)) as [->|Hne].
        -- rewrite list_lookup_insert_eq in Hj by (by eapply lookup_lt_Some).
           discriminate.
        -- rewrite list_lookup_insert_ne in Hj by done.
           assert (nt :: q = []) by (apply Hq; by exists j). discriminate.
  - (* the worker performs its next action *)
    destruct (fatal (perform e p a)) as [msg|] eqn:Hf'.
    + destruct (perform_fatal e p a msg Hf Hf') as (E1 & E2 & E3).
      split; rewrite ?E1, ?E2, ?E3; assumption.
    + destruct (perform_ok e p a Hf Hf') as (E1 & E2 & E3).
      destruct (flat_map_insert pending _ _ _ Hw) as (R & HR & HR').
      split; simpl; rewrite ?E1, ?E2, ?E3.
      * rewrite HR'. rewrite HR in Hperm. rewrite <- Hperm.
        unfold pending, sends. simpl.
        by rewrite app_nil_r, <- !app_assoc.
      * intros [j Hj]. apply Hq. destruct (decide (i = j)) as [->|Hne].
        -- rewrite list_lookup_insert_eq in Hj by (by eapply lookup_lt_Some).
           discriminate.
        -- rewrite list_lookup_insert_ne in Hj by done. by exists j.
Qed.

Lemma step_workers_length e p i :
  length (workers (step e p i)) = length (workers p).
Proof.
  unfold step. destruct (fatal p); [reflexivity|].
  destruct (workers p !! i) as [[[|a acts]|]|]; try reflexivity.
  - destruct (queue p); simpl; apply length_insert.
  - destruct (fatal (perform e p a)) eqn:E.
    + destruct a as [? ?|? ?|?]; simpl in *; try reflexivity.
      destruct (StorageAdd _ _ _ _); reflexivity.
    + simpl. rewrite length_insert.
      destruct a as [? ?|? ?|?]; simpl in *; try reflexivity.
      destruct (StorageAdd _ _ _ _); reflexivity.
Qed.

Lemma run_inv e tasks sched :
  forall p, poolInv e tasks p -> poolInv e tasks (foldl (step e) p sched).
Proof.
  induction sched as [|i sched IH]; intros p Hp; simpl; [exact Hp|].
  apply IH. by apply step_inv.
Qed.

Lemma run_workers_length e sched :
  forall p, length (workers (foldl (step e) p sched)) = length (workers p).
Proof.
  induction sched as [|i sched IH]; intros p; simpl; [reflexivity|].
  by rewrite IH, step_workers_length.
Qed.

Lemma runPool_inv e nworkers tasks sched :
  poolInv e tasks (runPool e nworkers tasks sched).
Proof. apply run_inv, poolInit_inv. Qed.

Lemma runPool_workers_length e nworkers tasks sched :
  length (workers (runPool e nworkers tasks sched)) = nworkers.
Proof.
  unfold runPool. rewrite run_workers_length. simpl. apply length_replicate.
Qed.

Lemma poolDone_all_exited p :
  poolDone p = true -> forall i w, workers p !! i = Some w -> w = None.
Proof.
  unfold poolDone. intros H i w Hw.
  rewrite forallb_forall in H.
  specialize (H w). destruct w; [|reflexivity].
  assert (false = true); [|discriminate]. apply H.
  apply list_elem_of_In. by eapply list_elem_of_lookup_2.
Qed.

Lemma pending_all_exited (ws : list (option (list action))) :
  (forall i w, ws !! i = Some w -> w = None) -> flat_map pending ws = [].
Proof.
  induction ws as [|w ws IH]; intros H; simpl; [reflexivity|].
  rewrite (H 0%nat w eq_refl). simpl. apply IH.
  intros i w' Hi. by apply (H (S i)).
Qed.

(** When every worker of a pool with a worker has left its loop, the
    consumer has received what the policy sends for each task. *)
Lemma poolDone_output e tasks p :
  poolInv e tasks p -> poolDone p = true -> (0 < length (workers p))%nat ->
  output p ≡ₚ flat_map (emitted e) (indexed tasks).
Proof.
  intros [Hperm Hq] Hd Hn.
  pose proof (poolDone_all_exited p Hd) as Hall.
  rewrite (pending_all_exited _ Hall) in Hperm.
  rewrite Hq in Hperm.
  - simpl in Hperm. by rewrite app_nil_r in Hperm.
  - destruct (workers p) as [|w ws] eqn:E; [simpl in Hn; lia|].
    exists 0%nat. simpl. f_equal. by apply (Hall 0%nat).
Qed.

(** A running worker can move, and its move brings the end nearer. *)
Lemma step_progress e p i acts :
  fatal p = None -> workers p !! i = Some (Some acts) ->
  fatal (step e p i) <> None \/ (workLeft (step e p i) < workLeft p)%nat.
Proof.
  intros Hf Hw. unfold step. rewrite Hf, Hw.
  destruct acts as [|a acts].
  - right. destruct (queue p) as [|nt q] eqn:Eq; unfold workLeft; simpl;
      rewrite ?Eq; simpl.
    + pose proof (sum_list_with_insert workerLeft _ i _ None Hw) as E.
      simpl in E. lia.
    + pose proof (sum_list_with_insert workerLeft _ i _
                    (Some (workerBody e nt)) Hw) as E.
      pose proof (workerBody_length e nt). simpl in E. lia.
  - destruct (fatal (perform e p a)) as [msg|] eqn:Hf'.
    + left. congruence.
    + right. destruct (perform_ok e p a Hf Hf') as (E1 & E2 & E3).
      unfold workLeft. simpl. rewrite E1, E2.
      pose proof (sum_list_with_insert workerLeft _ i _ (Some acts) Hw) as E.
      simpl in E. lia.
Qed.

Lemma not_done_running p :
  poolDone p = false -> exists i acts, workers p !! i = Some (Some acts).
Proof.
  unfold poolDone. induction (workers p) as [|w ws IH]; simpl; [discriminate|].
  destruct w as [acts|]; simpl.
  - intros _. by exists 0%nat, acts.
  - intros H. destruct (IH H) as (i & acts & Hi). by exists (S i), acts.
Qed.

Lemma run_finishes e :
  forall m p, (workLeft p <= m)%nat ->
    exists sched, finished (foldl (step e) p sched).
Proof.
  induction m as [|m IH]; intros p Hm.
  - destruct (fatal p) as [msg|] eqn:Hf; [exists []; left; simpl; congruence|].
    destruct (poolDone p) eqn:Hd; [exists []; by right|].
    destruct (not_done_running p Hd) as (i & acts & Hw).
    destruct (step_progress e p i acts Hf Hw) as [H|H]; [|lia].
    exists [i]. left. exact H.
  - destruct (fatal p) as [msg|] eqn:Hf; [exists []; left; simpl; congruence|].
    destruct (poolDone p) eqn:Hd; [exists []; by right|].
    destruct (not_done_running p Hd) as (i & acts & Hw).
    destruct (step_progress e p i acts Hf Hw) as [H|H].
    + exists [i]. left. exact H.
    + destruct (IH (step e p i)) as [sched Hs]; [lia|].
      by exists (i :: sched).
Qed.

(** For every input there is a schedule with which [Load] ends. *)
Lemma Load_ends e loaded opened ratio :
  exists sched, is_Some (Load e loaded opened ratio sched).
Proof.
  unfold Load. destruct loaded as [err|[count tasks]]; [by exists []|].
  destruct (Dry e); [by exists []|].
  destruct opened as [err|]; [by exists []|].
  destruct (run_finishes e _ (poolInit (nbWorkers e ratio) tasks) (Nat.le_refl _))
    as [sched Hs].
  exists sched. unfold runPool.
  destruct (foldl (collect e) _ _) as [bar images].
  destruct Hs as [Hs|Hs].
  - destruct (fatal _); [by eexists|done].
  - destruct (fatal _); [by eexists|]. rewrite Hs.
    destruct images; by eexists.
Qed.

Lemma collect_eq e out :
  forall bar imgs,
    foldl (collect e) (bar, imgs) out =
    (bar + Z.of_nat (length (wholePages out)), imgs ++ filter (isKept e) out).
Proof.
  unfold wholePages.
  induction out as [|img out IH]; intros bar imgs; simpl.
  - by rewrite Z.add_0_r, app_nil_r.
  - assert (Hbar : (if Part img =? 0 then bar + 1 else bar)
                   = bar + Z.of_nat (length (filter (fun i => Part i = 0) [img]))).
    { destruct (Z.eqb_spec (Part img) 0) as [E|E].
      - rewrite filter_cons_True by done. simpl. lia.
      - rewrite filter_cons_False by done. simpl. lia. }
    assert (Hcount : forall b,
      b + Z.of_nat (length (filter (fun i => Part i = 0) [img]))
        + Z.of_nat (length (filter (fun i => Part i = 0) out))
      = b + Z.of_nat (length (filter (fun i => Part i = 0) (img :: out)))).
    { intros b. change (img :: out) with ([img] ++ out).
      rewrite (filter_app _ [img] out), length_app. lia. }
    destruct (NoBlankImage (ImageOf e) && IsBlank img) eqn:Eb.
    + rewrite IH, Hbar, Hcount.
      apply andb_true_iff in Eb.
      rewrite (filter_cons_False (isKept e)); [reflexivity|].
      unfold isKept. tauto.
    + rewrite IH, Hbar, Hcount.
      apply andb_false_iff in Eb.
      rewrite (filter_cons_True (isKept e)).
      * by rewrite <- app_assoc.
      * unfold isKept. intros [? ?]. destruct Eb; congruence.
Qed.

Lemma emitted_parts e nt :
  map Part (emitted e nt) =
  (if decide (isWithheld e nt.2 (part0 e nt)) then [] else [0])
  ++ (if decide (isSplit e nt.2 (part0 e nt)) then [1; 2] else []).
Proof.
  unfold emitted. rewrite map_app. f_equal.
  - destruct (decide _); [reflexivity|]. simpl. f_equal.
    unfold release. by destruct (_ >? _).
  - destruct (decide _); reflexivity.
Qed.

Lemma emitted_has_part e nt (part : Z) :
  (exists img, img ∈ emitted e nt /\ Part img = part) <->
  part ∈ map Part (emitted e nt).
Proof.
  change (map Part (emitted e nt)) with (Part <$> emitted e nt).
  rewrite list_elem_of_fmap. split.
  - intros (img & Hin & <-). by exists img.
  - intros (img & -> & Hin). by exists img.
Qed.

Lemma wholePages_emitted e l :
  length (wholePages (flat_map (emitted e) l)) =
  length (filter (fun nt => ~ isWithheld e nt.2 (part0 e nt)) l).
Proof.
  unfold wholePages. induction l as [|nt l IH]; simpl; [reflexivity|].
  rewrite filter_app, length_app, IH. unfold emitted.
  rewrite filter_app, length_app.
  assert (length (filter (fun img => Part img = 0)
            (if decide (isSplit e nt.2 (part0 e nt))
             then [setRaw (half e nt 1) None; setRaw (half e nt 2) None]
             else [])) = 0%nat) as ->.
  { destruct (decide _); [|reflexivity].
    rewrite filter_cons_False by discriminate.
    by rewrite filter_cons_False by discriminate. }
  destruct (decide (isWithheld e nt.2 (part0 e nt))) as [Hw|Hw].
  - rewrite (filter_cons_False _ nt l) by tauto. simpl. lia.
  - rewrite (filter_cons_True _ nt l) by assumption.
    rewrite (filter_cons_True _ (release (part0 e nt)) []); [simpl; lia|].
    unfold release. by destruct (_ >? _).
Qed.

(** What a returning call of [Load] outside dry mode has done. *)
Lemma Load_returned e count tasks ratio sched imgs err eff :
  Dry e = false ->
  Load e (inr (count, tasks)) None ratio sched
    = Some (Returned imgs err, eff) ->
  let p := runPool e (nbWorkers e ratio) tasks sched in
  poolDone p = true
  /\ eff = {| transforms := transformed p; stored := written p;
              barMax := Some count;
              progress := Z.of_nat (length (wholePages (output p))) |}
  /\ ((filter (isKept e) (output p) = [] /\ imgs = []
       /\ err = Some errNoImagesFound)
      \/ (filter (isKept e) (output p) <> []
          /\ imgs = filter (isKept e) (output p) /\ err = None)).
Proof.
  intros Hdry. unfold Load. rewrite Hdry, collect_eq. simpl.
  destruct (fatal _); [discriminate|].
  destruct (poolDone _); [|discriminate].
  destruct (filter (isKept e) _) as [|img kept] eqn:E; intros [= <- <- <-].
  - split; [reflexivity|]. split; [reflexivity|]. by left.
  - split; [reflexivity|]. split; [reflexivity|]. by right.
Qed.

(** The progress bar gets one unit for every task whose unsplit page is
    not withheld. *)
Lemma Load_progress e count tasks ratio sched imgs err eff :
  Dry e = false -> 0 < ratio (wr e) ->
  Load e (inr (count, tasks)) None ratio sched
    = Some (Returned imgs err, eff) ->
  barMax eff = Some count
  /\ progress eff =
     Z.of_nat (length (filter (fun nt => ~ isWithheld e nt.2 (part0 e nt))
                         (indexed tasks))).
Proof.
  intros Hdry Hn HL.
  destruct (Load_returned _ _ _ _ _ _ _ _ Hdry HL) as (Hd & -> & _).
  split; [reflexivity|]. simpl. f_equal.
  rewrite <- wholePages_emitted. unfold wholePages.
  apply Permutation_length, filter_Permutation.
  apply poolDone_output; [apply runPool_inv|exact Hd|].
  rewrite runPool_workers_length. unfold nbWorkers. lia.
Qed.

(** C2.  When the workers of a pool with at least one worker have ended,
    the consumer has received, in some order, exactly the images the
    policy names: for each task the unsplit page (part 0) unless it is
    withheld, that is unless the page was detected double, auto-split is
    on, keep-double-page-if-split is off and the id is greater than 0; and
    the two halves (parts 1 and 2) exactly when auto-split is on, the page
    was detected double and it is not the cover (has-cover and id 0). *)
Theorem pool_output_policy (e : EPUBOptions) (nworkers : nat)
    (tasks : list task) (sched : list nat) :
  (0 < nworkers)%nat ->
  poolDone (runPool e nworkers tasks sched) = true ->
  let out := output (runPool e nworkers tasks sched) in
  out ≡ₚ flat_map (emitted e) (indexed tasks)
  /\ forall nt, nt ∈ indexed tasks ->
       (forall img, img ∈ emitted e nt -> img ∈ out)
       /\ ((exists img, img ∈ emitted e nt /\ Part img = 0)
           <-> ~ isWithheld e nt.2 (part0 e nt))
       /\ ((exists img, img ∈ emitted e nt /\ Part img = 1)
           <-> isSplit e nt.2 (part0 e nt))
       /\ ((exists img, img ∈ emitted e nt /\ Part img = 2)
           <-> isSplit e nt.2 (part0 e nt)).
Proof.
  intros Hn Hd out.
  assert (Hperm : out ≡ₚ flat_map (emitted e) (indexed tasks)).
  { apply poolDone_output; [apply runPool_inv|exact Hd|].
    by rewrite runPool_workers_length. }
  split; [exact Hperm|].
  intros nt Hnt. split.
  { intros img Himg. rewrite Hperm. apply list_elem_of_In, in_flat_map.
    exists nt. by rewrite <- !list_elem_of_In. }
  rewrite !emitted_has_part, emitted_parts.
  destruct (decide (isWithheld _ _ _)), (decide (isSplit _ _ _)); simpl;
    rewrite ?elem_of_cons, ?elem_of_nil; intuition discriminate.
Qed.

(** C7.  Outside dry mode, a returning call of [Load] returns the images
    it received in the order of their arrival, without those whose
    [IsBlank] flag is set when blank removal is on; and when no image is
    left it returns the error [errNoImagesFound] and no list. *)
Theorem Load_drops_blank_and_rejects_empty (e : EPUBOptions) (count : Z)
    (tasks : list task) (ratio : Z -> Z) (sched : list nat)
    (imgs : list EPUBImage) (err : option error) (eff : effects) :
  Dry e = false ->
  Load e (inr (count, tasks)) None ratio sched
    = Some (Returned imgs err, eff) ->
  let out := output (runPool e (nbWorkers e ratio) tasks sched) in
  (NoBlankImage (ImageOf e) = true ->
   forall img, img ∈ imgs <-> img ∈ out /\ IsBlank img = false)
  /\ (filter (isKept e) out = [] ->
      imgs = [] /\ err = Some errNoImagesFound)
  /\ (filter (isKept e) out <> [] ->
      imgs = filter (isKept e) out /\ err = None)
  /\ (err = None -> imgs <> []).
Proof.
  intros Hdry HL out.
  destruct (Load_returned _ _ _ _ _ _ _ _ Hdry HL) as (_ & _ & Hres).
  fold out in Hres.
  assert (Hkept : NoBlankImage (ImageOf e) = true ->
            forall img, img ∈ filter (isKept e) out
                        <-> img ∈ out /\ IsBlank img = false).
  { intros Hnb img. rewrite list_elem_of_filter. unfold isKept.
    rewrite Hnb. destruct (IsBlank img); intuition congruence. }
  destruct Hres as [(E & -> & ->)|(E & -> & ->)].
  - split; [intros Hnb img; rewrite <- (Hkept Hnb), E; reflexivity|].
    split; [done|]. split; [done|]. discriminate.
  - split; [exact Hkept|]. split; [done|]. split; [done|]. done.
Qed.

(** C10.  In dry mode [Load] returns, whatever the schedule, one record
    per task of the input, in order, with the id, path and name of the
    task and the configured format and nothing else; no error; it
    transforms nothing, stores nothing and creates no progress bar.  On an
    empty input it returns the empty list and no error, whereas outside
    dry mode a returning call on an empty input returns the error
    [errNoImagesFound]. *)
Theorem Load_dry (e : EPUBOptions) (count : Z) (tasks : list task)
    (opened : option error) (ratio : Z -> Z) (sched : list nat) :
  Dry e = true ->
  Load e (inr (count, tasks)) opened ratio sched
    = Some (Returned (map (dryImage e) tasks) None, noEffects)
  /\ length (map (dryImage e) tasks) = length tasks
  /\ (forall t,
        dryImage e t
        = {| epubimage.Id := Id t; Part := 0; Raw := None;
             epubimage.Width := 0; epubimage.Height := 0; IsBlank := false;
             DoublePage := false; epubimage.Path := Path t;
             epubimage.Name := Name t;
             epubimage.Format := epuboptions.Format (ImageOf e);
             OriginalAspectRatio := S754_zero false;
             epubimage.Error := None; Position := "" |})
  /\ Load e (inr (count, [])) opened ratio sched
     = Some (Returned [] None, noEffects)
  /\ (forall e' imgs err eff,
        Dry e' = false ->
        Load e' (inr (count, [])) None ratio sched
          = Some (Returned imgs err, eff) ->
        imgs = [] /\ err = Some errNoImagesFound).
Proof.
  intros Hdry. unfold Load at 1 2. rewrite Hdry.
  split; [reflexivity|]. split; [apply length_map|].
  split; [reflexivity|]. split; [reflexivity|].
  intros e' imgs err eff Hdry' HL.
  destruct (Load_returned _ _ _ _ _ _ _ _ Hdry' HL) as (_ & _ & Hres).
  destruct (runPool_inv e' (nbWorkers e' ratio) [] sched) as [Hperm _].
  simpl in Hperm. apply Permutation_nil_r, app_eq_nil in Hperm as [Hout _].
  rewrite Hout in Hres.
  destruct Hres as [(_ & -> & ->)|(E & _)]; [done|].
  by rewrite filter_nil in E.
Qed.

End WithStorage.


End WithFilters.


End processor_props.

(** *** The transform engine and the pool on the samples *)

Module processor_examples.
Import image epuboptions epubimage gift epubzip epubimageprocessor.
Import processor_props samples.

(** A landscape page that the crop turns into a portrait shape is not
    flagged as a double page. *)
Example cropped_landscape_is_not_double :
  let img := transformImage cropping (pageTask 1 1200 1000) 0 false 0 in
  Dx (Bounds (Image (pageTask 1 1200 1000))) = 1200
  /\ Dy (Bounds (Image (pageTask 1 1200 1000))) = 1000
  /\ epubimage.Width img = 600 /\ epubimage.Height img = 1000
  /\ DoublePage img = false.
Proof. repeat split; vm_compute; reflexivity. Qed.

(** The bounds that decide the flag are those of the chain before the
    rotation: a double page that is rotated keeps its flag, although the
    image it yields is taller than wide. *)
Example rotated_double_page_keeps_flag :
  let img := transformImage rotating (pageTask 1 1200 1000) 0 false 0 in
  DoublePage img = true
  /\ epubimage.Width img = 1000 /\ epubimage.Height img = 1200.
Proof. repeat split; vm_compute; reflexivity. Qed.

Lemma pool_output_policy_witness :
  let out := output (runPool splitting 2 threeTasks (turns 13)) in
  out ≡ₚ flat_map (emitted splitting) (indexed threeTasks)
  /\ map (fun img => (epubimage.Id img, Part img)) out
     = [(0, 0); (1, 0); (2, 1); (2, 2)].
Proof.
  intros out. split; [|vm_compute; reflexivity].
  apply (pool_output_policy splitting 2 threeTasks (turns 13)).
  - lia.
  - vm_compute; reflexivity.
Defined.

(** C6 fails on the code: with auto-split on and keep-double-page-if-split
    off, the only task of the input (id 1, a page of 1200 x 1000) is
    transformed in its three parts, its two halves are stored and
    returned, and the progress bar, created for one unit, receives none:
    the unsplit page is withheld in the worker and never reaches the loop
    that counts. *)
Theorem progress_misses_withheld_page :
  exists imgs,
    Load splitting (inr (1, [pageTask 1 1200 1000])) None workersRatio
      (replicate 9 0%nat)
    = Some (Returned imgs None,
            {| transforms := [(1, 0); (1, 1); (1, 2)];
               stored := ["OEBPS/Images/img_1_p1.jpeg";
                          "OEBPS/Images/img_1_p2.jpeg"];
               barMax := Some 1;
               progress := 0 |})
    /\ map (fun img => (epubimage.Id img, Part img)) imgs = [(1, 1); (1, 2)].
Proof.
  eexists. split; [vm_compute; reflexivity|]. vm_compute; reflexivity.
Qed.

Lemma Load_drops_blank_and_rejects_empty_witness :
  Load noBlank (inr (1, [pageTask 1 600 1000])) None workersRatio
    (replicate 5 0%nat)
  = Some (Returned [] (Some errNoImagesFound),
          {| transforms := [(1, 0)]; stored := ["OEBPS/Images/img_1_p0.jpeg"];
             barMax := Some 1; progress := 1 |})
  /\ map IsBlank
       (output (runPool noBlank 1 [pageTask 1 600 1000] (replicate 5 0%nat)))
     = [true]
  /\ filter (isKept noBlank)
       (output (runPool noBlank 1 [pageTask 1 600 1000] (replicate 5 0%nat)))
     = [].
Proof.
  assert (H : Load noBlank (inr (1, [pageTask 1 600 1000])) None workersRatio
                (replicate 5 0%nat)
              = Some (Returned [] (Some errNoImagesFound),
                      {| transforms := [(1, 0)];
                         stored := ["OEBPS/Images/img_1_p0.jpeg"];
                         barMax := Some 1; progress := 1 |}))
    by (vm_compute; reflexivity).
  split; [exact H|]. split; [vm_compute; reflexivity|].
  destruct (Load_drops_blank_and_rejects_empty noBlank 1 [pageTask 1 600 1000]
              workersRatio (replicate 5 0%nat) [] (Some errNoImagesFound) _ eq_refl H)
    as (_ & _ & Hne & _).
  destruct (filter (isKept noBlank) _) as [|img l] eqn:E; [reflexivity|].
  destruct Hne as [_ Herr]; discriminate.
Defined.

Lemma Load_dry_witness :
  Load dry (inr (3, threeTasks)) None workersRatio []
  = Some (Returned (map (dryImage dry) threeTasks) None, noEffects)
  /\ map (fun img => (epubimage.Id img, epubimage.Name img, epubimage.Format img))
       (map (dryImage dry) threeTasks)
     = [(0, "page0", "jpeg"); (1, "page1", "jpeg"); (2, "page2", "jpeg")]
  /\ Load dry (inr (3, [])) None workersRatio []
     = Some (Returned [] None, noEffects).
Proof.
  destruct (Load_dry dry 3 threeTasks None workersRatio [] eq_refl)
    as (H1 & _ & _ & H2 & _).
  split; [exact H1|]. split; [vm_compute; reflexivity|exact H2].
Defined.

End processor_examples.

(** ** Further properties of [content.go] *)

Module content_more.
Import epubimage epubtemplates content_props.

Lemma itemrefProps_idref (i p : string) :
  attrs (itemrefProps i p) !! "idref" = Some i.
Proof. unfold itemrefProps. simpl. apply lookup_insert_eq. Qed.

Lemma itemref_idref (i : string) : attrs (itemref i) !! "idref" = Some i.
Proof. unfold itemref. simpl. apply lookup_singleton_eq. Qed.

Lemma itemref_no_properties (i : string) :
  attrs (itemref i) !! "properties" = None.
Proof. unfold itemref. simpl. by apply lookup_singleton_ne. Qed.

Lemma item_id (i h m : string) : attrs (item i h m) !! "id" = Some i.
Proof. unfold item. simpl. apply lookup_insert_eq. Qed.

Section WithKeys.
Context {keys : Keys}.

Lemma placed_eq (o : Content) (k : nat) (img : EPUBImage) :
  exists p,
    (placed o k img).1 = setPosition img p
    /\ (p = center \/ p = right \/ p = left)
    /\ (p = center <-> DoublePage img = true).
Proof.
  unfold placed, placePage.
  destruct (DoublePage img) eqn:Hd.
  - rewrite getSpread_double. exists center. simpl. tauto.
  - rewrite getSpread_single.
    destruct (negb _); simpl; eexists; (split; [reflexivity|]);
      (split; [tauto|]); split; discriminate.
Qed.

Lemma getSpineAuto_length (o : Content) (sp : list tag) (imgs' : list EPUBImage) :
  getSpineAuto o = Some (sp, imgs') -> length imgs' = length (Images o).
Proof.
  intros Hs. apply getSpineAuto_Some in Hs as [-> _]. apply loopAfter_length.
Qed.

(** X1.  [getSpineAuto] returns the images in their order with nothing but
    the position changed; every position is the centre, the right or the
    left, and it is the centre exactly for the pages flagged double. *)
Theorem getSpineAuto_positions (o : Content) (sp : list tag)
    (imgs' : list EPUBImage) :
  getSpineAuto o = Some (sp, imgs') ->
  length imgs' = length (Images o)
  /\ forall k img, Images o !! k = Some img ->
       exists p, imgs' !! k = Some (setPosition img p)
                 /\ (p = center \/ p = right \/ p = left)
                 /\ (p = center <-> DoublePage img = true).
Proof.
  intros Hs. split; [by eapply getSpineAuto_length|].
  intros k img Hk.
  destruct (placed_eq o k img) as (p & Hp & Hside & Hc).
  exists p. rewrite <- Hp. split; [by eapply getSpineAuto_image|]. by split.
Qed.

(** X2.  The two halves of a split page (part 1 then part 2, neither
    flagged double) are placed on facing sides: the first half on the
    right and the second on the left in manga mode, the other way round
    otherwise. *)
Theorem getSpineAuto_halves_face (o : Content) (sp : list tag)
    (imgs' : list EPUBImage) (k : nat) (h1 h2 : EPUBImage) :
  getSpineAuto o = Some (sp, imgs') ->
  Images o !! k = Some h1 -> Images o !! S k = Some h2 ->
  DoublePage h1 = false -> Part h1 = 1 ->
  DoublePage h2 = false -> Part h2 = 2 ->
  imgs' !! k = Some (setPosition h1 (if Manga o then right else left))
  /\ imgs' !! S k = Some (setPosition h2 (if Manga o then left else right)).
Proof.
  intros Hs H1 H2 Hd1 Hp1 Hd2 Hp2.
  assert (E1 : placed o k h1
               = (setPosition h1 (if Manga o then right else left), Manga o)).
  { unfold placed, placePage.
    rewrite Hd1, spacerBefore_aligns by (by right).
    rewrite getSpread_single, negb_involutive. reflexivity. }
  rewrite (getSpineAuto_image _ _ _ _ _ Hs H1), (getSpineAuto_image _ _ _ _ _ Hs H2).
  rewrite E1. split; [reflexivity|].
  unfold placed, placePage.
  rewrite (carriedState_S _ _ _ H1), E1. simpl.
  rewrite spacerBefore_single by (assumption || lia). simpl.
  rewrite Hd2, getSpread_single. by destruct (Manga o).
Qed.

(** X3.  With a title page the loop over the images starts with
    [isOnTheRight] at the negation of the manga flag, with or without
    reader compatibility.  In compatibility mode the title page alone
    opens the spine, at the centre; otherwise a blank spacer and the title
    page open it, the title page on the left in manga mode and on the
    right otherwise, the spacer on the other side. *)
Theorem spineTitle_with_title (o : Content) :
  HasTitlePage o = true ->
  carriedState o 0 = negb (Manga o)
  /\ spineUpTo o 0 =
     if AppleBookCompatibility o then [itemrefProps "page_title" center]
     else [itemrefProps "space_title"
             ((if Manga o then right else left) +:+ " layout-blank");
           itemrefProps "page_title" (if Manga o then left else right)].
Proof.
  intros Ht. unfold carriedState, spineUpTo. rewrite loopAfter_0.
  unfold spineTitle, initialIsOnTheRight. rewrite Ht.
  unfold getSpreadBlank, getSpread.
  destruct (AppleBookCompatibility o), (Manga o); split; reflexivity.
Qed.

Lemma getSpineAuto_end (o : Content) (sp : list tag) (imgs' : list EPUBImage) :
  getSpineAuto o = Some (sp, imgs') ->
  (carriedState o (length (Images o)) = Manga o ->
   exists l, last imgs' = Some l
             /\ sp = spineUpTo o (length (Images o))
                     ++ [itemrefProps (SpaceKey l)
                           (if Manga o then left else right)])
  /\ (carriedState o (length (Images o)) <> Manga o ->
      sp = spineUpTo o (length (Images o))).
Proof.
  unfold getSpineAuto, carriedState, spineUpTo. rewrite loopAfter_all.
  set (st := spineRange o (spineTitle o) 0 (Images o)).
  destruct (Bool.eqb (Manga o) (isOnTheRight st)) eqn:E.
  - apply eqb_prop in E.
    destruct (last (images st)) as [l|] eqn:El; [|discriminate].
    rewrite getSpread_single, <- E. intros [= <- <-]. split; [|congruence].
    intros _. exists l. split; [exact El|]. by destruct (Manga o).
  - apply eqb_false_iff in E. intros [= <- <-]. split; [congruence|done].
Qed.

(** X4.  The spine of [getSpineAuto] is what the loop built, followed by
    one more spacer exactly when the loop ends with [isOnTheRight] equal to
    the manga flag; this last spacer names the last image, stands on the
    left in manga mode and on the right otherwise, and has no blank
    marker. *)
Theorem getSpineAuto_trailing (o : Content) (sp : list tag)
    (imgs' : list EPUBImage) :
  getSpineAuto o = Some (sp, imgs') ->
  (carriedState o (length (Images o)) = Manga o ->
   exists l, last imgs' = Some l
             /\ sp = spineUpTo o (length (Images o))
                     ++ [itemrefProps (SpaceKey l)
                           (if Manga o then left else right)])
  /\ (carriedState o (length (Images o)) <> Manga o ->
      sp = spineUpTo o (length (Images o))).
Proof. apply getSpineAuto_end. Qed.

(** X5.  [getSpineAuto] panics exactly on a book without images, in
    reader-compatibility mode and without title page: there the final
    spacer is due and there is no last image to name. *)
Theorem getSpineAuto_panics_iff (o : Content) :
  getSpineAuto o = None <->
  Images o = [] /\ AppleBookCompatibility o = true /\ HasTitlePage o = false.
Proof.
  split.
  - intros Hn. destruct (Images o) as [|img imgs] eqn:Ei.
    + split; [reflexivity|]. revert Hn.
      unfold getSpineAuto. rewrite Ei. simpl.
      unfold spineTitle, initialIsOnTheRight.
      unfold getSpreadBlank, getSpread.
      destruct (HasTitlePage o), (AppleBookCompatibility o), (Manga o);
        simpl; try discriminate; done.
    + destruct (getSpineAuto_total o) as [r Hr]; [by rewrite Ei|congruence].
  - intros (Ei & Ha & Ht). unfold getSpineAuto. rewrite Ei. simpl.
    unfold spineTitle, initialIsOnTheRight. rewrite Ei, Ha, Ht.
    unfold getSpread. by destruct (Manga o).
Qed.

(** X6.  The spine of portrait mode has one entry for the title page, if
    any, and one per image, in order; no entry has a [properties]
    attribute, and [String] leaves the images as they are. *)
Theorem getSpinePortrait_plain (o : Content) :
  map (fun t => attrs t !! "idref") (getSpinePortrait o)
  = (if HasTitlePage o then [Some "page_title"] else [])
    ++ map (fun img => Some (PageKey img)) (Images o)
  /\ (forall t, t ∈ getSpinePortrait o -> attrs t !! "properties" = None)
  /\ (PortraitOnly o = true ->
      String_spine o = Some (getSpinePortrait o, Images o)).
Proof.
  unfold getSpinePortrait. split; [|split].
  - rewrite map_app, map_map.
    rewrite (map_ext _ (fun img => Some (PageKey img)))
      by (intros img; apply itemref_idref).
    by destruct (HasTitlePage o).
  - intros t Ht. apply elem_of_app in Ht as [Ht|Ht].
    + destruct (HasTitlePage o); [|by apply elem_of_nil in Ht].
      apply list_elem_of_singleton in Ht as ->. apply itemref_no_properties.
    + apply list_elem_of_In, in_map_iff in Ht as (img & <- & _).
      apply itemref_no_properties.
  - intros Hp. unfold String_spine. by rewrite Hp.
Qed.

Lemma getSpineAuto_last (o : Content) (sp : list tag) (imgs' : list EPUBImage)
    (l : EPUBImage) :
  getSpineAuto o = Some (sp, imgs') -> last (Images o) = Some l ->
  exists p, last imgs' = Some (setPosition l p).
Proof.
  intros Hs Hl. rewrite last_lookup in Hl.
  destruct (placed_eq o (pred (length (Images o))) l) as (p & Hp & _).
  exists p. rewrite last_lookup, (getSpineAuto_length _ _ _ Hs), <- Hp.
  by eapply getSpineAuto_image.
Qed.

(** The entries the loop has appended after [k] iterations: those of the
    title page, the entries of the pages and their spacers. *)
Lemma spineUpTo_entries (o : Content) (t : tag) :
  forall k, (k <= length (Images o))%nat -> t ∈ spineUpTo o k ->
    t ∈ spineUpTo o 0
    \/ exists j img, (j < k)%nat /\ Images o !! j = Some img
         /\ (t = itemrefProps (PageKey (placed o j img).1)
                   (Position (placed o j img).1)
             \/ (needsSpacer o img (carriedState o j) = true
                 /\ exists p, t = itemrefProps (SpaceKey img) p)).
Proof.
  induction k as [|k IH]; intros Hk Ht; [by left|].
  destruct (lookup_lt_is_Some_2 (Images o) k) as [img Himg]; [lia|].
  rewrite (spineUpTo_S _ _ _ Himg), spacerBefore_eq in Ht.
  apply elem_of_app in Ht as [Ht|Ht]; [apply elem_of_app in Ht as [Ht|Ht]|].
  - destruct (IH ltac:(lia) Ht) as [H|(j & img' & Hj & Hl & H)]; [by left|].
    right. exists j, img'. split; [lia|]. by split.
  - right. exists k, img. split; [lia|]. split; [assumption|]. right.
    destruct (needsSpacer o img (carriedState o k)); simpl in Ht.
    + apply list_elem_of_singleton in Ht. split; [reflexivity|]. by eexists.
    + by apply elem_of_nil in Ht.
  - right. exists k, img. split; [lia|]. split; [assumption|]. left.
    by apply list_elem_of_singleton in Ht.
Qed.

Lemma manifest_items (o : Content) (items : list tag) :
  getManifest o = Some items ->
  exists l, last (Images o) = Some l
    /\ items = manifestHead o ++ map imageItem (Images o)
               ++ map pageItem (Images o)
               ++ map spaceItem
                    (filter (fun img => withSpace o l img = true) (Images o)).
Proof.
  unfold getManifest.
  destruct (last (Images o)) as [l|]; [|discriminate].
  intros [= <-]. exists l. split; [reflexivity|].
  unfold manifestLoop. by rewrite manifestLoop_eq.
Qed.

Lemma declared_page (o : Content) (items : list tag) (img : EPUBImage)
    (key props : string) :
  getManifest o = Some items -> img ∈ Images o -> key = PageKey img ->
  declared items (itemrefProps key props).
Proof.
  intros Hm Hin ->. destruct (manifest_items _ _ Hm) as (l & _ & ->).
  exists (pageItem img), (PageKey img). split; [|split].
  - rewrite !elem_of_app. right; right; left.
    apply list_elem_of_In, in_map. by apply list_elem_of_In.
  - apply item_id.
  - apply itemrefProps_idref.
Qed.

Lemma declared_space (o : Content) (items : list tag) (l img : EPUBImage)
    (key props : string) :
  getManifest o = Some items -> last (Images o) = Some l ->
  img ∈ Images o -> withSpace o l img = true -> key = SpaceKey img ->
  declared items (itemrefProps key props).
Proof.
  intros Hm Hl Hin Hw ->. destruct (manifest_items _ _ Hm) as (l' & Hl' & ->).
  assert (l' = l) as -> by congruence.
  exists (spaceItem img), (SpaceKey img). split; [|split].
  - rewrite !elem_of_app. right; right; right.
    apply list_elem_of_In, in_map, list_elem_of_In.
    by apply list_elem_of_filter.
  - apply item_id.
  - apply itemrefProps_idref.
Qed.

Lemma spineTitle_spine (o : Content) :
  spineUpTo o 0 =
  if HasTitlePage o then
    if AppleBookCompatibility o then [itemrefProps "page_title" center]
    else [itemrefProps "space_title"
            ((if Manga o then right else left) +:+ " layout-blank");
          itemrefProps "page_title" (if Manga o then left else right)]
  else [].
Proof.
  unfold spineUpTo. rewrite loopAfter_0.
  unfold spineTitle, initialIsOnTheRight, getSpreadBlank, getSpread.
  destruct (HasTitlePage o), (AppleBookCompatibility o), (Manga o);
    reflexivity.
Qed.

Lemma manifestHead_page_title (o : Content) :
  HasTitlePage o = true ->
  item "page_title" "Text/title.xhtml" "application/xhtml+xml" ∈ manifestHead o.
Proof.
  intros Ht. unfold manifestHead. rewrite Ht.
  apply elem_of_app. right. apply elem_of_app. left. apply list_elem_of_here.
Qed.

Lemma manifestHead_space_title (o : Content) :
  HasTitlePage o = true -> PortraitOnly o = false ->
  item "space_title" "Text/space_title.xhtml" "application/xhtml+xml"
    ∈ manifestHead o.
Proof.
  intros Ht Hp. unfold manifestHead. rewrite Ht, Hp. cbn [negb].
  apply elem_of_app. right. apply elem_of_app. right. apply list_elem_of_here.
Qed.

Lemma declared_title (o : Content) (items : list tag) (t : tag) :
  PortraitOnly o = false -> getManifest o = Some items ->
  t ∈ spineUpTo o 0 -> declared items t.
Proof.
  intros Hp Hm Ht. destruct (manifest_items _ _ Hm) as (l & _ & ->).
  rewrite spineTitle_spine in Ht.
  destruct (HasTitlePage o) eqn:Htitle; [|by apply elem_of_nil in Ht].
  assert (Hpage : forall props, declared
            (manifestHead o ++ map imageItem (Images o)
             ++ map pageItem (Images o)
             ++ map spaceItem
                  (filter (fun img => withSpace o l img = true) (Images o)))
            (itemrefProps "page_title" props)).
  { intros props.
    exists (item "page_title" "Text/title.xhtml" "application/xhtml+xml"),
           "page_title".
    split; [|split; [apply item_id|apply itemrefProps_idref]].
    apply elem_of_app. left. by apply manifestHead_page_title. }
  destruct (AppleBookCompatibility o).
  - apply list_elem_of_singleton in Ht as ->. apply Hpage.
  - apply elem_of_cons in Ht as [-> | Ht].
    + exists (item "space_title" "Text/space_title.xhtml" "application/xhtml+xml"),
             "space_title".
      split; [|split; [apply item_id|apply itemrefProps_idref]].
      apply elem_of_app. left. by apply manifestHead_space_title.
    + apply list_elem_of_singleton in Ht as ->. apply Hpage.
Qed.

(** X7.  Outside portrait mode, with keep-double-page-if-split off and
    page names that do not depend on the position, every entry of the
    spine of [getSpineAuto] refers to an item of the manifest of
    [getManifest], provided the last image is a double page, a first half,
    or a part-0 page that is equal to itself. *)
Theorem spine_refs_declared (o : Content) (items sp : list tag)
    (imgs' : list EPUBImage) (l : EPUBImage) :
  PortraitOnly o = false -> KeepDoublePageIfSplit o = false ->
  (forall img p, PageKey (setPosition img p) = PageKey img) ->
  (forall img p, SpaceKey (setPosition img p) = SpaceKey img) ->
  getManifest o = Some items -> getSpineAuto o = Some (sp, imgs') ->
  last (Images o) = Some l ->
  DoublePage l = true \/ Part l = 1 \/ (Part l = 0 /\ eqb l l = true) ->
  forall t, t ∈ sp -> declared items t.
Proof.
  intros Hport Hkeep Hpk Hsk Hm Hs Hl Hlast t Ht.
  assert (Hspaced : forall img, DoublePage img = true \/ Part img = 1 ->
            withSpace o l img = true).
  { intros img Hd. unfold withSpace. rewrite Hport, Hkeep. simpl.
    destruct Hd as [-> | ->]; [reflexivity|]. simpl. by rewrite orb_true_r. }
  assert (Hwl : withSpace o l l = true).
  { destruct Hlast as [H|[H|[H0 He]]]; [by apply Hspaced; left
                                       |by apply Hspaced; right|].
    unfold withSpace. rewrite Hport, H0, He. simpl. by rewrite !orb_true_r. }
  assert (Hlin : l ∈ Images o).
  { apply last_Some in Hl as [l' ->]. apply elem_of_app. right.
    apply list_elem_of_here. }
  assert (Hloop : t ∈ spineUpTo o (length (Images o)) -> declared items t).
  { intros Hin.
    destruct (spineUpTo_entries o t _ (Nat.le_refl _) Hin)
      as [H|(j & img & _ & Himg & [->|(Hn & p & ->)])].
    - by apply (declared_title o).
    - destruct (placed_eq o j img) as (p & -> & _).
      eapply declared_page; [exact Hm|by eapply list_elem_of_lookup_2|].
      apply Hpk.
    - apply needsSpacer_iff in Hn as [Hd _].
      eapply declared_space; [exact Hm|exact Hl| |by apply Hspaced|reflexivity].
      by eapply list_elem_of_lookup_2. }
  destruct (getSpineAuto_end _ _ _ Hs) as [Hyes Hno].
  destruct (decide (carriedState o (length (Images o)) = Manga o)) as [E|E].
  - destruct (Hyes E) as (l' & Hl' & ->).
    apply elem_of_app in Ht as [Ht|Ht]; [by apply Hloop|].
    apply list_elem_of_singleton in Ht as ->.
    destruct (getSpineAuto_last _ _ _ _ Hs Hl) as (p & Hp).
    assert (l' = setPosition l p) as -> by congruence.
    eapply declared_space; [exact Hm|exact Hl|exact Hlin|exact Hwl|].
    apply Hsk.
  - rewrite (Hno E) in Ht. by apply Hloop.
Qed.

(** X8.  In portrait mode every entry of the spine refers to an item of
    the manifest. *)
Theorem portrait_refs_declared (o : Content) (items : list tag) :
  getManifest o = Some items ->
  forall t, t ∈ getSpinePortrait o -> declared items t.
Proof.
  intros Hm t Ht. unfold getSpinePortrait in Ht.
  apply elem_of_app in Ht as [Ht|Ht].
  - destruct (manifest_items _ _ Hm) as (l & _ & ->).
    destruct (HasTitlePage o) eqn:Htitle; [|by apply elem_of_nil in Ht].
    apply list_elem_of_singleton in Ht as ->.
    exists (item "page_title" "Text/title.xhtml" "application/xhtml+xml"),
           "page_title".
    split; [|split; [apply item_id|apply itemref_idref]].
    apply elem_of_app. left. by apply manifestHead_page_title.
  - apply list_elem_of_In, in_map_iff in Ht as (img & <- & Hin).
    destruct (manifest_items _ _ Hm) as (l & _ & ->).
    exists (pageItem img), (PageKey img). split; [|split].
    + rewrite !elem_of_app. right; right; left.
      by apply list_elem_of_In, in_map.
    + apply item_id.
    + apply itemref_idref.
Qed.

Section WithFormatting.
Context {fmt : Formatting}.

(** X9.  [String] panics exactly when the book has no image: the manifest
    needs the last image and the guide the first. *)
Theorem String_panics_iff (o : Content) :
  String_package o = None <-> Images o = [].
Proof.
  unfold String_package, getManifest. split.
  - destruct (Images o) as [|img imgs] eqn:Ei; [done|].
    destruct (last (img :: imgs)) as [l|] eqn:El.
    2:{ by apply last_None in El. }
    destruct (String_spine o) as [[sp imgs']|] eqn:Es.
    + assert (Hlen : length imgs' = length (Images o)).
      { unfold String_spine in Es. destruct (PortraitOnly o).
        - by injection Es as _ <-.
        - by eapply getSpineAuto_length. }
      rewrite Ei in Hlen. unfold getGuide. simpl.
      destruct imgs'; [discriminate|discriminate].
    + unfold String_spine in Es. destruct (PortraitOnly o); [discriminate|].
      destruct (getSpineAuto_total o) as [r Hr]; [by rewrite Ei|congruence].
  - intros ->. reflexivity.
Qed.

Lemma getMeta_names (o : Content) :
  map (fun t => attrs t !! "name") (getMeta o)
  = [None; None; None; None; None; None; Some "book-type";
     Some "fixed-layout"; Some "original-resolution"; None; None; None; None;
     None; None; None; None; None; None; Some "primary-writing-mode";
     Some "cover"]
    ++ (if Total o >? 1
        then [Some "calibre:series"; Some "calibre:series_index"] else []).
Proof.
  unfold getMeta.
  destruct (PortraitOnly o), (Manga o), (Total o >? 1); reflexivity.
Qed.

(** X10.  The metadata name the series exactly when the book is one of
    several ([Total] above 1), then with the title as series and the
    current index; and they always give the writing mode that matches the
    reading direction [String] puts on the spine. *)
Theorem getMeta_series (o : Content) :
  ((exists t, t ∈ getMeta o /\ attrs t !! "name" = Some "calibre:series")
   <-> 1 < Total o)
  /\ (1 < Total o ->
      metaName "meta" "calibre:series" (Title o) ∈ getMeta o
      /\ metaName "meta" "calibre:series_index" (IntToString (Current o))
           ∈ getMeta o)
  /\ metaName "meta" "primary-writing-mode"
       (if Manga o then "horizontal-rl" else "horizontal-lr") ∈ getMeta o
  /\ forall pkg imgs, String_package o = Some (pkg, imgs) ->
       pkgMetadata pkg = getMeta o
       /\ pkgSpineAttrs pkg !! "page-progression-direction"
          = Some (if Manga o then "rtl" else "ltr").
Proof.
  split; [|split; [|split]].
  - split.
    + intros (t & Hin & Hname).
      assert (Hn : Some "calibre:series"
                   ∈ map (fun t => attrs t !! "name") (getMeta o)).
      { rewrite <- Hname.
        apply list_elem_of_In, (in_map (fun t => attrs t !! "name")).
        by apply list_elem_of_In. }
      rewrite getMeta_names in Hn.
      destruct (Total o >? 1) eqn:E; [by apply Z.gtb_lt in E|].
      rewrite app_nil_r in Hn.
      repeat (apply elem_of_cons in Hn as [Hn|Hn]; [discriminate|]).
      by apply elem_of_nil in Hn.
    + intros Ht. apply Z.gtb_lt in Ht.
      exists (metaName "meta" "calibre:series" (Title o)).
      split; [|reflexivity]. unfold getMeta. rewrite Ht.
      apply elem_of_app. right. apply list_elem_of_here.
  - intros Ht. apply Z.gtb_lt in Ht. unfold getMeta. rewrite Ht.
    split; apply elem_of_app; right;
      [apply list_elem_of_here|apply list_elem_of_further, list_elem_of_here].
  - unfold getMeta.
    assert (H : forall base,
      metaName "meta" "primary-writing-mode"
        (if Manga o then "horizontal-rl" else "horizontal-lr")
      ∈ (if Manga o
         then base ++ [metaName "meta" "primary-writing-mode" "horizontal-rl"]
         else base ++ [metaName "meta" "primary-writing-mode" "horizontal-lr"])
        ++ [metaName "meta" "cover" "img_cover"]).
    { intros base. apply elem_of_app. left.
      destruct (Manga o); apply elem_of_app; right; apply list_elem_of_here. }
    destruct (Total o >? 1); [apply elem_of_app; left|]; apply H.
  - intros pkg imgs. unfold String_package.
    destruct (getManifest o); [|discriminate].
    destruct (String_spine o) as [[sp imgs']|]; [|discriminate].
    destruct (getGuide _); [|discriminate].
    intros [= <- <-]. split; [reflexivity|]. apply lookup_singleton_eq.
Qed.

End WithFormatting.
End WithKeys.
End content_more.

(** *** The further properties on the samples *)

Module content_more_examples.
Import epubimage epubtemplates content_props content_more samples.

Lemma splitBook_spine :
  getSpineAuto splitBook = Some (spineOf splitBook, imagesOf splitBook).
Proof. vm_compute; reflexivity. Qed.

Lemma getSpineAuto_positions_witness :
  map Position (imagesOf splitBook) = [right; right; left; center; right]
  /\ length (imagesOf splitBook) = length (Images splitBook)
  /\ exists p, imagesOf splitBook !! 3%nat = Some (setPosition (page 3 0 true) p)
               /\ (p = center <-> DoublePage (page 3 0 true) = true).
Proof.
  split; [vm_compute; reflexivity|].
  destruct (getSpineAuto_positions splitBook _ _ splitBook_spine) as [Hlen Hall].
  split; [exact Hlen|].
  destruct (Hall 3%nat (page 3 0 true) eq_refl) as (p & Hp & _ & Hc).
  by exists p.
Defined.

Lemma getSpineAuto_halves_face_witness :
  imagesOf splitBook !! 1%nat = Some (setPosition (page 2 1 false) right)
  /\ imagesOf splitBook !! 2%nat = Some (setPosition (page 2 2 false) left).
Proof.
  apply (getSpineAuto_halves_face splitBook (spineOf splitBook)
           (imagesOf splitBook) 1 (page 2 1 false) (page 2 2 false)
           splitBook_spine); reflexivity.
Defined.

Lemma spineTitle_with_title_witness :
  carriedState titledBook 0 = false
  /\ spineUpTo titledBook 0
     = [itemrefProps "space_title" (right +:+ " layout-blank");
        itemrefProps "page_title" left].
Proof.
  apply (spineTitle_with_title titledBook). reflexivity.
Defined.

Lemma getSpineAuto_trailing_witness :
  carriedState splitBook 5 = Manga splitBook
  /\ exists l, last (imagesOf splitBook) = Some l
       /\ spineOf splitBook
          = spineUpTo splitBook 5 ++ [itemrefProps (SpaceKey l) left].
Proof.
  split; [vm_compute; reflexivity|].
  destruct (getSpineAuto_trailing splitBook _ _ splitBook_spine) as [Hyes _].
  apply Hyes. vm_compute; reflexivity.
Defined.

Lemma spine_refs_declared_witness :
  getManifest halvesBook = Some (manifestOf halvesBook)
  /\ getSpineAuto halvesBook = Some (spineOf halvesBook, imagesOf halvesBook)
  /\ map (fun t => attrs t !! "idref") (spineOf halvesBook)
     = [Some "space_title"; Some "page_title"; Some "page_1_p0";
        Some "space_2"; Some "page_2_p1"; Some "page_2_p2";
        Some "page_3_p0"; Some "space_3"]
  /\ forall t, t ∈ spineOf halvesBook -> declared (manifestOf halvesBook) t.
Proof.
  assert (Hm : getManifest halvesBook = Some (manifestOf halvesBook))
    by (vm_compute; reflexivity).
  assert (Hs : getSpineAuto halvesBook
               = Some (spineOf halvesBook, imagesOf halvesBook))
    by (vm_compute; reflexivity).
  split; [exact Hm|]. split; [exact Hs|].
  split; [vm_compute; reflexivity|].
  apply (spine_refs_declared halvesBook (manifestOf halvesBook)
           (spineOf halvesBook) (imagesOf halvesBook) (page 3 0 false)).
  - reflexivity.
  - reflexivity.
  - intros img p. reflexivity.
  - intros img p. reflexivity.
  - exact Hm.
  - exact Hs.
  - reflexivity.
  - right; right. split; [reflexivity|vm_compute; reflexivity].
Defined.

Lemma portrait_refs_declared_witness :
  getManifest portraitBook = Some (manifestOf portraitBook)
  /\ map (fun t => attrs t !! "idref") (getSpinePortrait portraitBook)
     = [Some "page_title"; Some "page_1_p0"; Some "page_2_p0"]
  /\ forall t, t ∈ getSpinePortrait portraitBook ->
       declared (manifestOf portraitBook) t.
Proof.
  assert (Hm : getManifest portraitBook = Some (manifestOf portraitBook))
    by (vm_compute; reflexivity).
  split; [exact Hm|]. split; [vm_compute; reflexivity|].
  apply (portrait_refs_declared portraitBook (manifestOf portraitBook) Hm).
Defined.

(** [getSpineAuto] panics on the empty book in compatibility mode. *)
Example getSpineAuto_panics_example : getSpineAuto emptyCompat = None.
Proof. reflexivity. Qed.

End content_more_examples.

(** ** Further properties of [processor.go] *)

Module processor_more.
Import image epuboptions epubimage gift epubzip epubimageprocessor.
Import processor_props.

Section WithFilters.
Context {filters : Filters}.

Lemma withheld_split e nt :
  isWithheld e nt.2 (part0 e nt) -> isSplit e nt.2 (part0 e nt).
Proof.
  unfold isWithheld, isSplit. intros (Hd & Ha & _ & Hid).
  split; [assumption|]. split; [assumption|]. intros [_ H0]. lia.
Qed.

(** X11.  For one task a worker sends the unsplit page alone, the unsplit
    page and the two halves, or the two halves alone, in this order, all
    with the id of the task: never nothing, and a withheld page is always
    replaced by its halves. *)
Theorem workerBody_parts (e : EPUBOptions) (nt : nat * task) :
  (map Part (sends (workerBody e nt)) = [0]
   \/ map Part (sends (workerBody e nt)) = [0; 1; 2]
   \/ map Part (sends (workerBody e nt)) = [1; 2])
  /\ (forall img, img ∈ sends (workerBody e nt) -> epubimage.Id img = Id nt.2)
  /\ (map Part (sends (workerBody e nt)) = [1; 2]
      <-> isWithheld e nt.2 (part0 e nt)).
Proof.
  rewrite sends_workerBody. split; [|split].
  - rewrite emitted_parts.
    destruct (decide (isWithheld _ _ _)) as [Hw|Hw],
             (decide (isSplit _ _ _)) as [Hs|Hs]; simpl; auto.
    by destruct Hs, (withheld_split e nt).
  - unfold emitted. intros img Hin.
    apply elem_of_app in Hin as [Hin|Hin].
    + destruct (decide _); [by apply elem_of_nil in Hin|].
      apply list_elem_of_singleton in Hin as ->.
      unfold release. by destruct (_ >? _).
    + destruct (decide _); [|by apply elem_of_nil in Hin].
      apply elem_of_cons in Hin as [-> | Hin]; [reflexivity|].
      by apply list_elem_of_singleton in Hin as ->.
  - rewrite emitted_parts.
    destruct (decide (isWithheld _ _ _)) as [Hw|Hw],
             (decide (isSplit _ _ _)) as [Hs|Hs]; simpl;
      split; intros H; try discriminate; try done.
    by destruct Hs, (withheld_split e nt).
Qed.

(** X12.  The unsplit page of a task whose id is not above 0 is always
    sent, and with its buffer; when the book has a cover, the task of id 0
    yields this one image and is never split. *)
Theorem cover_is_kept_whole (e : EPUBOptions) (n : nat) (input : task) :
  Id input <= 0 ->
  part0 e (n, input) ∈ sends (workerBody e (n, input))
  /\ Raw (part0 e (n, input)) <> None
  /\ (HasCover (ImageOf e) = true -> Id input = 0 ->
      sends (workerBody e (n, input)) = [part0 e (n, input)]).
Proof.
  intros Hid. rewrite sends_workerBody. unfold emitted.
  assert (Hnw : ~ isWithheld e (n, input).2 (part0 e (n, input))).
  { unfold isWithheld. simpl. lia. }
  assert (Hrel : release (part0 e (n, input)) = part0 e (n, input)).
  { unfold release. simpl.
    destruct (Z.gtb_spec (Id input) 0); [lia|reflexivity]. }
  rewrite (decide_False (P := isWithheld _ _ _)) by exact Hnw.
  rewrite Hrel. split; [|split].
  - apply elem_of_app. left. apply list_elem_of_here.
  - discriminate.
  - intros Hc H0. rewrite decide_False; [reflexivity|].
    unfold isSplit. simpl. tauto.
Qed.

Lemma isCropSplit_count (g : list Filter) (c : bool) (f : Filter) :
  length (filter (fun f => isCropSplit f = true) (addIf c g f))
  = (length (filter (fun f => isCropSplit f = true) g)
     + if c && isCropSplit f then 1 else 0)%nat.
Proof.
  unfold addIf, Add, GIFT. destruct c; cbn [andb]; [|by rewrite Nat.add_0_r].
  rewrite filter_app, length_app.
  destruct (isCropSplit f) eqn:E.
  - rewrite (filter_cons_True _ f []) by assumption. reflexivity.
  - rewrite (filter_cons_False _ f []) by congruence. reflexivity.
Qed.

Lemma isRotate_count (g : list Filter) (c : bool) (f : Filter) :
  length (filter (fun f => isRotate f = true) (addIf c g f))
  = (length (filter (fun f => isRotate f = true) g)
     + if c && isRotate f then 1 else 0)%nat.
Proof.
  unfold addIf, Add, GIFT. destruct c; cbn [andb]; [|by rewrite Nat.add_0_r].
  rewrite filter_app, length_app.
  destruct (isRotate f) eqn:E.
  - rewrite (filter_cons_True _ f []) by assumption. reflexivity.
  - rewrite (filter_cons_False _ f []) by congruence. reflexivity.
Qed.

Lemma grayScaleFilter_plain (mode : Z) :
  isCropSplit (grayScaleFilter mode) = false
  /\ isRotate (grayScaleFilter mode) = false.
Proof.
  unfold grayScaleFilter. by destruct (mode =? 1), (mode =? 2).
Qed.

(** X13.  The chain of [transformImage] splits exactly once for a half
    (part above 0) and never for an unsplit page, whatever the aspect
    option, which only moves the split before or after the crop; it
    rotates exactly once when auto-rotate is on and the page is detected
    double, and never otherwise; and it always ends with the pixel
    filter. *)
Theorem allFilters_shape (e : EPUBOptions) (input : task) (part : Z)
    (right : bool) :
  let g : list Filter := allFilters e input part right in
  length (filter (fun f => isCropSplit f = true) g)
  = (if part >? 0 then 1 else 0)%nat
  /\ length (filter (fun f => isRotate f = true) g)
     = (if AutoRotate (ImageOf e) && isDoublePage e input part right
        then 1 else 0)%nat
  /\ last g = Some Pixel
  /\ (0 < part -> KeepSplitDoublePageAspect (ImageOf e) = true ->
      last (geometryFilters e input part right)
      = Some (CropSplitDoublePage right))
  /\ (0 < part -> KeepSplitDoublePageAspect (ImageOf e) = false ->
      head (geometryFilters e input part right)
      = Some (CropSplitDoublePage right)).
Proof.
  intros g.
  assert (Hgeo : length (filter (fun f => isCropSplit f = true)
                           (geometryFilters e input part right : list Filter))
                 = (if part >? 0 then 1 else 0)%nat
                 /\ length (filter (fun f => isRotate f = true)
                              (geometryFilters e input part right : list Filter))
                    = 0%nat).
  { unfold geometryFilters, New, GIFT. cbv zeta. rewrite isCropSplit_count, isRotate_count.
    destruct (Enabled (Crop (ImageOf e)) || NoBlankImage (ImageOf e));
      rewrite ?isCropSplit_count, ?isRotate_count;
      rewrite ?isCropSplit_count, ?isRotate_count; simpl;
      destruct (part >? 0), (KeepSplitDoublePageAspect (ImageOf e));
      simpl; rewrite ?andb_false_r; split; reflexivity. }
  destruct Hgeo as [Hsplit Hrot].
  split; [|split; [|split; [|split]]].
  - unfold g, allFilters, Add, GIFT in *. cbv zeta.
    rewrite filter_app, length_app, !isCropSplit_count, Hsplit.
    destruct (grayScaleFilter_plain (GrayScaleMode (ImageOf e))) as [-> _].
    simpl. rewrite !andb_false_r. simpl. lia.
  - unfold g, allFilters, Add, GIFT in *. cbv zeta.
    rewrite filter_app, length_app, !isRotate_count, Hrot.
    destruct (grayScaleFilter_plain (GrayScaleMode (ImageOf e))) as [_ ->].
    simpl. rewrite !andb_false_r, andb_true_r. simpl. lia.
  - unfold g, allFilters, Add. cbv zeta. apply last_snoc.
  - intros Hp Hk. unfold geometryFilters. cbv zeta. rewrite Hk.
    apply Z.gtb_lt in Hp. rewrite Hp. simpl. unfold Add. apply last_snoc.
  - intros Hp Hk. unfold geometryFilters. cbv zeta. rewrite Hk.
    apply Z.gtb_lt in Hp. rewrite Hp. simpl.
    destruct (Enabled (Crop (ImageOf e)) || NoBlankImage (ImageOf e));
      [|reflexivity].
    unfold addIf. by destruct (_ || _).
Qed.

Lemma geometry_without_crop (e : EPUBOptions) (input : task) (right : bool) :
  Enabled (Crop (ImageOf e)) = false ->
  GIFT_Bounds (geometryFilters e input 0 right) (Bounds (Image input))
  = if NoBlankImage (ImageOf e)
       && ((Dx (cropSize e input 0 right) =? 0)
           && (Dy (cropSize e input 0 right) =? 0))
    then cropSize e input 0 right
    else Bounds (Image input).
Proof.
  intros Hc. unfold geometryFilters, cropSize. cbv zeta. rewrite Hc.
  change (0 >? 0) with false. cbn [andb orb negb addIf].
  destruct (NoBlankImage (ImageOf e)); cbn [andb orb]; [|reflexivity].
  destruct (_ && _); reflexivity.
Qed.

(** X14.  With cropping off, the unsplit page is flagged double exactly
    when its source is wider than tall and the blank test (made only when
    blank removal is on) does not find it empty: a page found blank is
    never a double page, and otherwise the shape of the source decides. *)
Theorem isDoublePage_without_crop (e : EPUBOptions) (input : task)
    (right : bool) (buf : nat) :
  Enabled (Crop (ImageOf e)) = false ->
  let src := Bounds (Image input) in
  let size := cropSize e input 0 right in
  DoublePage (transformImage e input 0 right buf) = true
  <-> Dy src < Dx src
      /\ ~ (NoBlankImage (ImageOf e) = true /\ Dx size = 0 /\ Dy size = 0).
Proof.
  intros Hc src size.
  change (DoublePage (transformImage e input 0 right buf))
    with (isDoublePage e input 0 right).
  unfold isDoublePage. cbv zeta. rewrite (geometry_without_crop _ _ _ Hc).
  fold src. fold size. change (0 =? 0) with true. cbn [andb].
  rewrite andb_true_iff, !Z.gtb_ltb, !Z.ltb_lt.
  destruct (NoBlankImage (ImageOf e)); cbn [andb].
  - destruct (Z.eqb_spec (Dx size) 0) as [E1|E1],
             (Z.eqb_spec (Dy size) 0) as [E2|E2]; cbn [andb];
      intuition (try lia; try congruence).
  - intuition congruence.
Qed.

Section WithStorage.
Context {keys : Keys} {storage : Storage}.

Lemma indexed_task (tasks : list task) (nt : nat * task) :
  nt ∈ indexed tasks -> nt.2 ∈ tasks.
Proof.
  unfold indexed. intros Hin.
  apply elem_of_lookup_imap_1 in Hin as (i & t & -> & Hl).
  simpl. by eapply list_elem_of_lookup_2.
Qed.

Lemma indexed_tasks (tasks : list task) : map snd (indexed tasks) = tasks.
Proof.
  unfold indexed. change (map snd) with (fmap (M := list) (@snd nat task)).
  rewrite fmap_imap. rewrite (imap_ext _ (const id)); [|done].
  by rewrite imap_const, list_fmap_id.
Qed.

(** Whatever the schedule, an image the consumer has received is one the
    policy sends for a task of the input. *)
Lemma output_emitted e nworkers tasks sched img :
  img ∈ output (runPool e nworkers tasks sched) ->
  exists nt, nt ∈ indexed tasks /\ img ∈ emitted e nt.
Proof.
  intros Hin. destruct (runPool_inv e nworkers tasks sched) as [Hperm _].
  assert (H : img ∈ flat_map (emitted e) (indexed tasks)).
  { rewrite <- Hperm. apply elem_of_app. by left. }
  apply list_elem_of_In, in_flat_map in H as (nt & H1 & H2).
  exists nt. by rewrite !list_elem_of_In.
Qed.

(** X15.  Whatever the schedule, an image that reaches the consumer with
    its buffer is an unsplit page whose id is not above 0: every other
    buffer has been released. *)
Theorem output_buffers_released (e : EPUBOptions) (nworkers : nat)
    (tasks : list task) (sched : list nat) (img : EPUBImage) :
  img ∈ output (runPool e nworkers tasks sched) ->
  Raw img <> None ->
  epubimage.Id img <= 0 /\ Part img = 0.
Proof.
  intros Hin Hraw. destruct (output_emitted _ _ _ _ _ Hin) as (nt & _ & He).
  unfold emitted in He. apply elem_of_app in He as [He|He].
  - destruct (decide _); [by apply elem_of_nil in He|].
    apply list_elem_of_singleton in He as ->.
    unfold release in *.
    destruct (Z.gtb_spec (epubimage.Id (part0 e nt)) 0); [done|].
    split; [lia|reflexivity].
  - destruct (decide _); [|by apply elem_of_nil in He].
    apply elem_of_cons in He as [-> | He]; [done|].
    by apply list_elem_of_singleton in He as ->.
Qed.

Lemma stores_workerBody e nt :
  stores (workerBody e nt) = map EPUBImgPath (persisted e nt).
Proof.
  destruct nt as [n input]. unfold workerBody, persisted, stores.
  rewrite !flat_map_app, map_app. simpl.
  change (transformImage e input 0 (Manga (ImageOf e)) (bufferOf n 0))
    with (part0 e (n, input)).
  f_equal.
  - destruct (withheld e input (part0 e (n, input))) eqn:E; simpl.
    + apply withheld_iff in E. by rewrite decide_True.
    + rewrite decide_False; [reflexivity|].
      rewrite <- withheld_iff. congruence.
  - destruct (noSplit e (part0 e (n, input))) eqn:E.
    + rewrite decide_False; [reflexivity|].
      rewrite <- (noSplit_iff e input) by reflexivity. congruence.
    + apply (noSplit_iff e input) in E; [|reflexivity].
      rewrite decide_True by assumption. reflexivity.
Qed.

Lemma persisted_length e nt :
  length (persisted e nt) = length (emitted e nt).
Proof.
  unfold persisted, emitted. rewrite !length_app.
  by destruct (decide _), (decide _).
Qed.

Lemma storing_idle_replicate (n : nat) :
  flat_map storing (replicate n (Some [])) = [].
Proof. induction n as [|n IH]; simpl; [reflexivity|exact IH]. Qed.

Lemma step_store_inv e tasks p i :
  poolStoreInv e tasks p -> poolStoreInv e tasks (step e p i).
Proof.
  unfold poolStoreInv. intros Hperm. unfold step.
  destruct (fatal p) as [msg|] eqn:Hf; [done|].
  destruct (workers p !! i) as [[[|a acts]|]|] eqn:Hw; try done.
  - destruct (flat_map_insert storing _ _ _ Hw) as (R & HR & HR').
    destruct (queue p) as [|nt q] eqn:Eq; simpl.
    + rewrite HR'. rewrite HR in Hperm. exact Hperm.
    + rewrite HR'. simpl. rewrite HR in Hperm. simpl in Hperm.
      rewrite <- Hperm.
      rewrite (Permutation_app_comm (stores (workerBody e nt)) R).
      by rewrite <- !app_assoc.
  - destruct (flat_map_insert storing _ _ _ Hw) as (R & HR & HR').
    rewrite HR in Hperm.
    destruct a as [id part|name img|img]; simpl.
    + rewrite Hf. simpl. rewrite HR'. exact Hperm.
    + destruct (StorageAdd _ _ _ _); simpl.
      * rewrite HR. exact Hperm.
      * rewrite Hf. simpl. rewrite HR'. rewrite <- Hperm. simpl.
        by rewrite <- !app_assoc.
    + rewrite Hf. simpl. rewrite HR'. exact Hperm.
Qed.

Lemma runPool_store_inv e nworkers tasks sched :
  poolStoreInv e tasks (runPool e nworkers tasks sched).
Proof.
  unfold runPool.
  assert (H : poolStoreInv e tasks (poolInit nworkers tasks)).
  { unfold poolStoreInv. simpl. by rewrite storing_idle_replicate. }
  revert H. generalize (poolInit nworkers tasks).
  induction sched as [|i sched IH]; intros p Hp; simpl; [exact Hp|].
  apply IH. by apply step_store_inv.
Qed.

Lemma storing_all_exited (ws : list (option (list action))) :
  (forall i w, ws !! i = Some w -> w = None) -> flat_map storing ws = [].
Proof.
  induction ws as [|w ws IH]; intros H; simpl; [reflexivity|].
  rewrite (H 0%nat w eq_refl). simpl. apply IH.
  intros i w' Hi. by apply (H (S i)).
Qed.

Lemma poolDone_queue e tasks p :
  poolInv e tasks p -> poolDone p = true -> (0 < length (workers p))%nat ->
  queue p = [].
Proof.
  intros [_ Hq] Hd Hn. apply Hq.
  destruct (workers p) as [|w ws] eqn:E; [simpl in Hn; lia|].
  exists 0%nat. simpl. f_equal.
  apply (poolDone_all_exited p Hd 0%nat). by rewrite E.
Qed.

Lemma flat_map_length_ext {A B C : Type} (f : A -> list B) (g : A -> list C)
    (l : list A) :
  (forall x, length (f x) = length (g x)) ->
  length (flat_map f l) = length (flat_map g l).
Proof.
  intros H. induction l as [|x l IH]; simpl; [reflexivity|].
  by rewrite !length_app, H, IH.
Qed.

(** X16.  When the workers of a pool with at least one worker have ended,
    the storage has been given, in some order, exactly the images that
    were sent, each under the path of the image as it was transformed: a
    withheld page is not stored, and as many images are stored as are
    received. *)
Theorem pool_stores_what_it_sends (e : EPUBOptions) (nworkers : nat)
    (tasks : list task) (sched : list nat) :
  (0 < nworkers)%nat ->
  poolDone (runPool e nworkers tasks sched) = true ->
  written (runPool e nworkers tasks sched)
    ≡ₚ flat_map (fun nt => map EPUBImgPath (persisted e nt)) (indexed tasks)
  /\ length (written (runPool e nworkers tasks sched))
     = length (output (runPool e nworkers tasks sched)).
Proof.
  intros Hn Hd. set (p := runPool e nworkers tasks sched) in *.
  assert (Hlen : (0 < length (workers p))%nat)
    by (unfold p; by rewrite runPool_workers_length).
  pose proof (runPool_inv e nworkers tasks sched) as Hinv. fold p in Hinv.
  pose proof (runPool_store_inv e nworkers tasks sched) as Hst. fold p in Hst.
  unfold poolStoreInv in Hst.
  rewrite (storing_all_exited _ (poolDone_all_exited p Hd)) in Hst.
  rewrite (poolDone_queue e tasks p Hinv Hd Hlen) in Hst.
  simpl in Hst. rewrite app_nil_r in Hst.
  assert (Hw : written p ≡ₚ flat_map (fun nt => map EPUBImgPath (persisted e nt))
                             (indexed tasks)).
  { rewrite Hst. apply Permutation_refl'.
    apply flat_map_ext. intros nt. apply stores_workerBody. }
  split; [exact Hw|].
  rewrite (Permutation_length Hw).
  rewrite (Permutation_length (poolDone_output e tasks p Hinv Hd Hlen)).
  apply flat_map_length_ext. intros nt.
  by rewrite length_map, persisted_length.
Qed.

Lemma storedFirst_workerBody e nt : storedFirst (workerBody e nt).
Proof.
  destruct nt as [n input]. unfold workerBody.
  destruct (negb _), (noSplit _ _); simpl; repeat split; lia.
Qed.

Lemma storedFirst_le acts :
  storedFirst acts -> (length (stores acts) <= length (sends acts))%nat.
Proof. destruct acts as [|a acts]; simpl; [lia|]. by intros [H _]. Qed.

Lemma step_storedFirst e p i :
  Forall (fun w => match w with Some acts => storedFirst acts | None => True end)
         (workers p) ->
  Forall (fun w => match w with Some acts => storedFirst acts | None => True end)
         (workers (step e p i)).
Proof.
  intros H. unfold step.
  destruct (fatal p) as [msg|] eqn:Hf; [done|].
  destruct (workers p !! i) as [[[|a acts]|]|] eqn:Hw; try done.
  - destruct (queue p) as [|nt q]; simpl.
    + by apply Forall_insert.
    + apply Forall_insert; [done|]. apply storedFirst_workerBody.
  - pose proof (Forall_lookup_1 _ _ _ _ H Hw) as [_ Htail].
    destruct (fatal (perform e p a)) as [msg|] eqn:Hf'.
    + destruct (perform_fatal e p a msg Hf Hf') as (_ & -> & _). done.
    + destruct (perform_ok e p a Hf Hf') as (_ & E & _). simpl. rewrite E.
      by apply Forall_insert.
Qed.

Lemma flat_map_length_le {A B C : Type} (f : A -> list B) (g : A -> list C)
    (P : A -> Prop) (l : list A) :
  (forall x, P x -> (length (f x) <= length (g x))%nat) -> Forall P l ->
  (length (flat_map f l) <= length (flat_map g l))%nat.
Proof.
  intros H Hl. induction Hl as [|x l Hx Hl IH]; simpl; [lia|].
  rewrite !length_app. specialize (H x Hx). lia.
Qed.

Lemma runPool_storedFirst e nworkers tasks sched :
  Forall (fun w => match w with Some acts => storedFirst acts | None => True end)
         (workers (runPool e nworkers tasks sched)).
Proof.
  unfold runPool.
  assert (H0 : Forall (fun w => match w with
                                | Some acts => storedFirst acts
                                | None => True
                                end) (workers (poolInit nworkers tasks))).
  { simpl. by apply Forall_replicate. }
  revert H0. generalize (poolInit nworkers tasks).
  induction sched as [|i sched IH]; intros q Hq; simpl; [exact Hq|].
  apply IH. by apply step_storedFirst.
Qed.

(** X17.  Whatever the schedule, and at every moment of the run, the
    consumer has received no more images than the storage has accepted: an
    image is stored before it is sent. *)
Theorem pool_stores_before_sending (e : EPUBOptions) (nworkers : nat)
    (tasks : list task) (sched : list nat) :
  (length (output (runPool e nworkers tasks sched))
   <= length (written (runPool e nworkers tasks sched)))%nat.
Proof.
  set (p := runPool e nworkers tasks sched).
  destruct (runPool_inv e nworkers tasks sched) as [Hperm _]. fold p in Hperm.
  pose proof (runPool_store_inv e nworkers tasks sched) as Hst. fold p in Hst.
  pose proof (runPool_storedFirst e nworkers tasks sched) as Hok.
  fold p in Hok.
  apply Permutation_length in Hperm, Hst.
  rewrite !length_app in Hperm, Hst.
  assert (E1 : length (flat_map (fun nt => stores (workerBody e nt)) (queue p))
               = length (flat_map (emitted e) (queue p))).
  { apply flat_map_length_ext. intros nt.
    by rewrite stores_workerBody, length_map, persisted_length. }
  assert (E2 : length (flat_map (fun nt => stores (workerBody e nt))
                         (indexed tasks))
               = length (flat_map (emitted e) (indexed tasks))).
  { apply flat_map_length_ext. intros nt.
    by rewrite stores_workerBody, length_map, persisted_length. }
  assert (E3 : (length (flat_map storing (workers p))
                <= length (flat_map pending (workers p)))%nat).
  { eapply flat_map_length_le; [|exact Hok].
    intros [acts|] Hacts; simpl; [by apply storedFirst_le|lia]. }
  lia.
Qed.

Lemma workerBody_stores_name e n input name img :
  Store name img ∈ workerBody e (n, input) -> name = Name input.
Proof.
  unfold workerBody. intros Hin.
  apply elem_of_app in Hin as [Hin|Hin].
  { apply list_elem_of_singleton in Hin. discriminate. }
  apply elem_of_app in Hin as [Hin|Hin].
  - destruct (negb _); [|by apply elem_of_nil in Hin].
    apply elem_of_cons in Hin as [Hin|Hin]; [by injection Hin|].
    apply list_elem_of_singleton in Hin. discriminate.
  - destruct (noSplit _ _); [by apply elem_of_nil in Hin|].
    simpl in Hin.
    repeat (apply elem_of_cons in Hin as [Hin|Hin];
            [first [discriminate | by injection Hin]|]).
    by apply elem_of_nil in Hin.
Qed.

Lemma step_names e tasks p i :
  (Forall (fun w => match w with
                    | Some acts => storesNamed tasks acts
                    | None => True
                    end) (workers p)
   /\ (forall nt, nt ∈ queue p -> nt.2 ∈ tasks)
   /\ (forall msg, fatal p = Some msg -> namesTask tasks msg)) ->
  (Forall (fun w => match w with
                    | Some acts => storesNamed tasks acts
                    | None => True
                    end) (workers (step e p i))
   /\ (forall nt, nt ∈ queue (step e p i) -> nt.2 ∈ tasks)
   /\ (forall msg, fatal (step e p i) = Some msg -> namesTask tasks msg)).
Proof.
  intros (Hw & Hq & Hfat). unfold step.
  destruct (fatal p) as [msg|] eqn:Hf; [by rewrite Hf|].
  destruct (workers p !! i) as [[[|a acts]|]|] eqn:El;
    try (by rewrite Hf).
  - destruct (queue p) as [|[n input] q] eqn:Eq; simpl.
    + split; [by apply Forall_insert|]. split; [|intros msg Hm; congruence].
      intros nt Hnt. by apply elem_of_nil in Hnt.
    + split; [|split; [|intros msg Hm; congruence]].
      * apply Forall_insert; [done|].
        intros name img Hin. exists input. split.
        -- apply (Hq (n, input)). apply list_elem_of_here.
        -- exact (workerBody_stores_name e n input name img Hin).
      * intros nt Hnt. apply Hq. by apply list_elem_of_further.
  - pose proof (Forall_lookup_1 _ _ _ _ Hw El) as Hnamed.
    destruct a as [id part|name img|img]; simpl; rewrite ?Hf; simpl.
    + split; [|split; [done|intros msg Hm; congruence]].
      apply Forall_insert; [done|].
      intros name img Hin. apply (Hnamed name img).
      by apply list_elem_of_further.
    + destruct (StorageAdd _ _ _ _) as [err|]; simpl; rewrite ?Hf; simpl.
      * split; [done|]. split; [done|].
        intros msg [= <-].
        destruct (Hnamed name img (list_elem_of_here _ _)) as (t & Ht & ->).
        by exists t, err.
      * split; [|split; [done|intros msg Hm; congruence]].
        apply Forall_insert; [done|].
        intros name' img' Hin. apply (Hnamed name' img').
        by apply list_elem_of_further.
    + split; [|split; [done|intros msg Hm; congruence]].
      apply Forall_insert; [done|].
      intros name img' Hin. apply (Hnamed name img').
      by apply list_elem_of_further.
Qed.

Lemma runPool_fatal_names e nworkers tasks sched msg :
  fatal (runPool e nworkers tasks sched) = Some msg -> namesTask tasks msg.
Proof.
  unfold runPool.
  assert (H0 : Forall (fun w => match w with
                                | Some acts => storesNamed tasks acts
                                | None => True
                                end) (workers (poolInit nworkers tasks))
               /\ (forall nt, nt ∈ queue (poolInit nworkers tasks) ->
                              nt.2 ∈ tasks)
               /\ (forall msg, fatal (poolInit nworkers tasks) = Some msg ->
                               namesTask tasks msg)).
  { simpl. split; [|split; [apply indexed_task|discriminate]].
    apply Forall_replicate. intros name img Hin. by apply elem_of_nil in Hin. }
  revert H0. generalize (poolInit nworkers tasks).
  induction sched as [|i sched IH]; intros p Hp; simpl.
  - intros Hf. by apply Hp.
  - apply IH. by apply step_names.
Qed.

(** X18.  When [Load] ends the process, it does so outside dry mode, after
    the loader and the storage writer were set up, and with a message of
    the form "error with NAME: ERR" where NAME is the name of a task of the
    input and ERR an error of the storage. *)
Theorem Load_exit_names_task (e : EPUBOptions) (loaded : error + Z * list task)
    (opened : option error) (ratio : Z -> Z) (sched : list nat) (msg : string)
    (eff : effects) :
  Load e loaded opened ratio sched = Some (Exited msg, eff) ->
  Dry e = false /\ opened = None
  /\ exists count tasks, loaded = inr (count, tasks) /\ namesTask tasks msg.
Proof.
  unfold Load. destruct loaded as [err|[count tasks]]; [discriminate|].
  destruct (Dry e); [discriminate|].
  destruct opened as [err|]; [discriminate|].
  destruct (foldl (collect e) _ _) as [bar images].
  destruct (fatal _) as [m|] eqn:Hf.
  - intros [= <- _]. split; [reflexivity|]. split; [reflexivity|].
    exists count, tasks. split; [reflexivity|].
    by eapply runPool_fatal_names.
  - destruct (poolDone _); [|discriminate]. by destruct images.
Qed.

Lemma step_no_fatal e p i :
  (forall w path raw q, StorageAdd w path raw q = None) ->
  fatal p = None -> fatal (step e p i) = None.
Proof.
  intros Hok Hf. unfold step. rewrite Hf.
  destruct (workers p !! i) as [[[|a acts]|]|]; try done.
  - by destruct (queue p).
  - destruct a as [id part|name img|img]; simpl; rewrite ?Hok; simpl;
      by rewrite Hf.
Qed.

Lemma runPool_no_fatal e nworkers tasks sched :
  (forall w path raw q, StorageAdd w path raw q = None) ->
  fatal (runPool e nworkers tasks sched) = None.
Proof.
  intros Hok. unfold runPool.
  assert (H0 : fatal (poolInit nworkers tasks) = None) by reflexivity.
  revert H0. generalize (poolInit nworkers tasks).
  induction sched as [|i sched IH]; intros p Hp; simpl; [exact Hp|].
  apply IH. by apply step_no_fatal.
Qed.

(** X19.  With a storage that accepts every image, [Load] never ends the
    process, whatever the schedule, and some schedule makes it return. *)
Theorem Load_returns_with_reliable_storage (e : EPUBOptions)
    (loaded : error + Z * list task) (opened : option error)
    (ratio : Z -> Z) :
  (forall w path raw q, StorageAdd w path raw q = None) ->
  (forall sched msg eff,
     Load e loaded opened ratio sched <> Some (Exited msg, eff))
  /\ exists sched imgs err eff,
       Load e loaded opened ratio sched = Some (Returned imgs err, eff).
Proof.
  intros Hok.
  assert (Hnever : forall sched msg eff,
            Load e loaded opened ratio sched <> Some (Exited msg, eff)).
  { intros sched msg eff. unfold Load.
    destruct loaded as [err|[count tasks]]; [discriminate|].
    destruct (Dry e); [discriminate|].
    destruct opened as [err|]; [discriminate|].
    destruct (foldl (collect e) _ _) as [bar images].
    rewrite (runPool_no_fatal e _ tasks sched Hok). destruct (poolDone _); [|discriminate]. by destruct images. }
  split; [exact Hnever|].
  destruct (Load_ends e loaded opened ratio) as [sched [[out eff] Hs]].
  destruct out as [imgs err|msg].
  - by exists sched, imgs, err, eff.
  - by destruct (Hnever sched msg eff).
Qed.

Lemma step_single e tasks p i :
  (exists w, workers p = [w]
             /\ output p ++ pending w ++ flat_map (emitted e) (queue p)
                = flat_map (emitted e) (indexed tasks)) ->
  exists w, workers (step e p i) = [w]
            /\ output (step e p i) ++ pending w
                 ++ flat_map (emitted e) (queue (step e p i))
               = flat_map (emitted e) (indexed tasks).
Proof.
  intros (w & Hw & Heq). unfold step.
  destruct (fatal p) as [msg|] eqn:Hf; [by exists w|].
  rewrite Hw. destruct i as [|i]; simpl; [|by exists w].
  destruct w as [[|a acts]|]; [| |by exists None].
  - destruct (queue p) as [|nt q] eqn:Eq; simpl; rewrite Hw; simpl.
    + by exists None.
    + exists (Some (workerBody e nt)). split; [reflexivity|].
      simpl. by rewrite sends_workerBody.
  - destruct (fatal (perform e p a)) as [msg|] eqn:Hf'.
    + destruct (perform_fatal e p a msg Hf Hf') as (E1 & E2 & E3).
      exists (Some (a :: acts)). rewrite E1, E2, E3. by split.
    + destruct (perform_ok e p a Hf Hf') as (E1 & E2 & E3).
      exists (Some acts). simpl. rewrite E1, E2, E3, Hw. split; [reflexivity|].
      rewrite <- Heq. unfold pending, sends. simpl.
      by rewrite app_nil_r, <- !app_assoc.
Qed.

Lemma runPool_single e tasks sched :
  exists w, workers (runPool e 1 tasks sched) = [w]
    /\ output (runPool e 1 tasks sched) ++ pending w
         ++ flat_map (emitted e) (queue (runPool e 1 tasks sched))
       = flat_map (emitted e) (indexed tasks).
Proof.
  unfold runPool.
  assert (H0 : exists w, workers (poolInit 1 tasks) = [w]
             /\ output (poolInit 1 tasks) ++ pending w
                  ++ flat_map (emitted e) (queue (poolInit 1 tasks))
                = flat_map (emitted e) (indexed tasks)).
  { by exists (Some []). }
  revert H0. generalize (poolInit 1 tasks).
  induction sched as [|i sched IH]; intros p Hp; simpl; [exact Hp|].
  apply IH. by apply step_single.
Qed.

(** X20.  With a single worker the consumer receives the images in the
    order of the input, and for each task in the order of the parts:
    whatever the schedule, once the worker has ended the stream is the
    concatenation, task by task, of what the worker sends. *)
Theorem single_worker_keeps_order (e : EPUBOptions) (tasks : list task)
    (sched : list nat) :
  poolDone (runPool e 1 tasks sched) = true ->
  output (runPool e 1 tasks sched)
  = flat_map (fun nt => sends (workerBody e nt)) (indexed tasks).
Proof.
  intros Hd. destruct (runPool_single e tasks sched) as (w & Hw & Heq).
  assert (Hq : queue (runPool e 1 tasks sched) = []).
  { apply (poolDone_queue e tasks); [apply runPool_inv|exact Hd|].
    rewrite runPool_workers_length. lia. }
  assert (w = None) as ->.
  { apply (poolDone_all_exited _ Hd 0%nat). by rewrite Hw. }
  rewrite Hq in Heq. simpl in Heq. rewrite app_nil_r in Heq.
  rewrite Heq. apply flat_map_ext. intros nt. by rewrite sends_workerBody.
Qed.

Lemma filter_all {A : Type} (P : A -> Prop) `{!forall x, Decision (P x)}
    (l : list A) :
  (forall x, x ∈ l -> P x) -> filter P l = l.
Proof.
  induction l as [|x l IH]; intros Hall; [reflexivity|].
  rewrite filter_cons_True by (apply Hall; apply list_elem_of_here).
  f_equal. apply IH. intros y Hy. apply Hall. by apply list_elem_of_further.
Qed.

Lemma indexed_length (tasks : list task) :
  length (indexed tasks) = length tasks.
Proof. unfold indexed. apply length_imap. Qed.

(** X21.  When [Load] returns outside dry mode, the progress bar has
    received at most one unit per task of the input, and exactly one per
    task when no page can be withheld, that is when auto-split is off or
    keep-double-page-if-split is on. *)
Theorem Load_progress_bound (e : EPUBOptions) (count : Z) (tasks : list task)
    (ratio : Z -> Z) (sched : list nat) (imgs : list EPUBImage)
    (err : option error) (eff : effects) :
  Dry e = false -> 0 < ratio (wr e) ->
  Load e (inr (count, tasks)) None ratio sched
    = Some (Returned imgs err, eff) ->
  progress eff <= Z.of_nat (length tasks)
  /\ (AutoSplitDoublePage (ImageOf e) = false
      \/ KeepDoublePageIfSplit (ImageOf e) = true ->
      progress eff = Z.of_nat (length tasks)).
Proof.
  intros Hdry Hr HL.
  destruct (Load_progress _ _ _ _ _ _ _ _ Hdry Hr HL) as [_ ->].
  split.
  - rewrite <- indexed_length. apply inj_le, length_filter.
  - intros Hno. rewrite filter_all; [by rewrite indexed_length|].
    intros nt _. unfold isWithheld.
    destruct Hno as [H|H]; rewrite H; intuition discriminate.
Qed.

Lemma flat_map_singleton {A B : Type} (f : A -> B) (l : list A) :
  flat_map (fun x => [f x]) l = map f l.
Proof. induction l as [|x l IH]; simpl; [reflexivity|]. by rewrite IH. Qed.

(** X22.  Without auto-split and without blank removal, a returning
    [Load] outside dry mode returns exactly one image per task of the
    input, the unsplit page with its buffer released unless the id is not
    above 0; only on an empty input does it return the error
    [errNoImagesFound]. *)
Theorem Load_one_image_per_task (e : EPUBOptions) (count : Z)
    (tasks : list task) (ratio : Z -> Z) (sched : list nat)
    (imgs : list EPUBImage) (err : option error) (eff : effects) :
  Dry e = false -> 0 < ratio (wr e) ->
  AutoSplitDoublePage (ImageOf e) = false ->
  NoBlankImage (ImageOf e) = false ->
  Load e (inr (count, tasks)) None ratio sched
    = Some (Returned imgs err, eff) ->
  imgs ≡ₚ map (fun nt => release (part0 e nt)) (indexed tasks)
  /\ length imgs = length tasks
  /\ (err = Some errNoImagesFound <-> tasks = [])
  /\ (err = None <-> tasks <> []).
Proof.
  intros Hdry Hr Hsplit Hnb HL.
  destruct (Load_returned _ _ _ _ _ _ _ _ Hdry HL) as (Hd & _ & Hres).
  set (out := output (runPool e (nbWorkers e ratio) tasks sched)) in *.
  assert (Hout : out ≡ₚ map (fun nt => release (part0 e nt)) (indexed tasks)).
  { unfold out. rewrite poolDone_output;
      [|apply runPool_inv|exact Hd
       |rewrite runPool_workers_length; unfold nbWorkers; lia].
    rewrite <- flat_map_singleton. apply Permutation_refl'.
    apply flat_map_ext. intros nt. unfold emitted.
    rewrite decide_False, decide_False; [reflexivity| |];
      unfold isSplit, isWithheld; rewrite Hsplit; intuition discriminate. }
  assert (Hkept : filter (isKept e) out = out).
  { apply filter_all. intros img _. unfold isKept. rewrite Hnb.
    intuition discriminate. }
  rewrite Hkept in Hres.
  assert (Hlen : length out = length tasks).
  { by rewrite (Permutation_length Hout), length_map, indexed_length. }
  destruct Hres as [(E & -> & ->)|(E & -> & ->)].
  - rewrite E in Hout, Hlen. split; [exact Hout|]. split; [exact Hlen|].
    assert (tasks = []) as -> by (by destruct tasks).
    split; [done|]. split; [discriminate|done].
  - split; [exact Hout|]. split; [exact Hlen|].
    assert (tasks <> []).
    { intros ->. simpl in Hlen. by destruct out. }
    split; [split; [discriminate|done]|done].
Qed.

Lemma emitted_idPart e nt :
  map idPart (emitted e nt)
  = map (fun part => (Id nt.2, part)) (map Part (emitted e nt)).
Proof.
  rewrite map_map. unfold emitted, idPart.
  rewrite !map_app. f_equal.
  - destruct (decide _); [reflexivity|]. simpl. unfold release.
    by destruct (_ >? _).
  - destruct (decide _); reflexivity.
Qed.

Lemma emitted_idPart_NoDup e nt : NoDup (map idPart (emitted e nt)).
Proof.
  rewrite emitted_idPart, emitted_parts.
  destruct (decide _), (decide _); simpl;
    repeat (apply NoDup_cons; split;
            [rewrite ?elem_of_cons, elem_of_nil; intuition congruence|]);
    apply NoDup_nil_2.
Qed.

Lemma idPart_ids e (l : list (nat * task)) (x : Z * Z) :
  x ∈ map idPart (flat_map (emitted e) l) ->
  x.1 ∈ map (fun nt => Id nt.2) l.
Proof.
  induction l as [|nt l IH]; simpl.
  { intros Hin. by apply elem_of_nil in Hin. }
  rewrite map_app. intros Hin. apply elem_of_app in Hin as [Hin|Hin].
  - rewrite emitted_idPart in Hin.
    apply list_elem_of_In, in_map_iff in Hin as (part & <- & _).
    apply list_elem_of_here.
  - apply list_elem_of_further. by apply IH.
Qed.

Lemma emitted_all_NoDup e (l : list (nat * task)) :
  NoDup (map (fun nt => Id nt.2) l) ->
  NoDup (map idPart (flat_map (emitted e) l)).
Proof.
  induction l as [|nt l IH]; simpl; [intros _; apply NoDup_nil_2|].
  intros Hnd. apply NoDup_cons in Hnd as [Hnotin Hnd].
  rewrite map_app. apply NoDup_app. split; [apply emitted_idPart_NoDup|].
  split; [|by apply IH].
  intros x Hx Hx'. apply Hnotin.
  assert (x.1 = Id nt.2) as <-.
  { rewrite emitted_idPart in Hx.
    by apply list_elem_of_In, in_map_iff in Hx as (part & <- & _). }
  by eapply idPart_ids.
Qed.

(** X23.  When the ids of the tasks are pairwise distinct, the images a
    returning [Load] returns outside dry mode have pairwise distinct pairs
    of id and part. *)
Theorem Load_pages_are_distinct (e : EPUBOptions) (count : Z)
    (tasks : list task) (ratio : Z -> Z) (sched : list nat)
    (imgs : list EPUBImage) (err : option error) (eff : effects) :
  NoDup (map Id tasks) ->
  Dry e = false -> 0 < ratio (wr e) ->
  Load e (inr (count, tasks)) None ratio sched
    = Some (Returned imgs err, eff) ->
  NoDup (map idPart imgs).
Proof.
  intros Hnd Hdry Hr HL.
  destruct (Load_returned _ _ _ _ _ _ _ _ Hdry HL) as (Hd & _ & Hres).
  set (out := output (runPool e (nbWorkers e ratio) tasks sched)) in *.
  assert (Hout : NoDup (map idPart out)).
  { assert (Hperm : out ≡ₚ flat_map (emitted e) (indexed tasks)).
    { apply poolDone_output; [apply runPool_inv|exact Hd|].
      rewrite runPool_workers_length. unfold nbWorkers. lia. }
    change (map idPart out) with (idPart <$> out). rewrite Hperm.
    apply emitted_all_NoDup.
    rewrite <- (indexed_tasks tasks), map_map in Hnd. exact Hnd. }
  destruct Hres as [(_ & -> & _)|(_ & -> & _)]; [apply NoDup_nil_2|].
  eapply sublist_NoDup; [exact Hout|].
  change (map idPart) with (fmap (M := list) idPart).
  apply fmap_sublist, sublist_filter.
Qed.

End WithStorage.
End WithFilters.
End processor_more.

(** *** The further properties of the pool on the samples *)

Module processor_more_examples.
Import image epuboptions epubimage gift epubzip epubimageprocessor.
Import processor_props processor_more samples.

Lemma cover_is_kept_whole_witness :
  map Part (sends (workerBody splitting (0%nat, pageTask 0 1200 1000))) = [0]
  /\ DoublePage (part0 splitting (0%nat, pageTask 0 1200 1000)) = true
  /\ sends (workerBody splitting (0%nat, pageTask 0 1200 1000))
     = [part0 splitting (0%nat, pageTask 0 1200 1000)].
Proof.
  split; [vm_compute; reflexivity|]. split; [vm_compute; reflexivity|].
  destruct (cover_is_kept_whole splitting 0 (pageTask 0 1200 1000))
    as (_ & _ & H).
  - vm_compute. discriminate.
  - apply H; reflexivity.
Defined.

Lemma isDoublePage_without_crop_witness :
  DoublePage (transformImage noBlank (pageTask 1 1200 1000) 0 false 0) = true
  <-> 1000 < 1200
      /\ ~ (true = true
            /\ Dx (cropSize noBlank (pageTask 1 1200 1000) 0 false) = 0
            /\ Dy (cropSize noBlank (pageTask 1 1200 1000) 0 false) = 0).
Proof.
  apply (isDoublePage_without_crop noBlank (pageTask 1 1200 1000) false 0).
  reflexivity.
Defined.

Lemma output_buffers_released_witness :
  map (fun img => (epubimage.Id img, Part img, bool_decide (Raw img = None)))
      (output (runPool splitting 2 threeTasks (turns 13)))
  = [(0, 0, false); (1, 0, true); (2, 1, true); (2, 2, true)]
  /\ forall img, img ∈ output (runPool splitting 2 threeTasks (turns 13)) ->
       Raw img <> None -> epubimage.Id img <= 0 /\ Part img = 0.
Proof.
  split; [vm_compute; reflexivity|].
  intros img. apply (output_buffers_released splitting 2 threeTasks (turns 13)).
Defined.

Lemma pool_stores_what_it_sends_witness :
  written (runPool splitting 2 threeTasks (turns 13))
  = ["OEBPS/Images/img_0_p0.jpeg"; "OEBPS/Images/img_1_p0.jpeg";
     "OEBPS/Images/img_2_p1.jpeg"; "OEBPS/Images/img_2_p2.jpeg"]
  /\ written (runPool splitting 2 threeTasks (turns 13))
     ≡ₚ flat_map (fun nt => map EPUBImgPath (persisted splitting nt))
          (indexed threeTasks)
  /\ length (written (runPool splitting 2 threeTasks (turns 13)))
     = length (output (runPool splitting 2 threeTasks (turns 13))).
Proof.
  split; [vm_compute; reflexivity|].
  apply (pool_stores_what_it_sends splitting 2 threeTasks (turns 13)).
  - lia.
  - vm_compute; reflexivity.
Defined.

Lemma Load_exit_names_task_witness :
  Load (storage := fullStorage) splitting (inr (1, [pageTask 1 600 1000]))
    None workersRatio (replicate 3 0%nat)
  = Some (Exited "error with page1: disk full",
          {| transforms := [(1, 0)]; stored := []; barMax := Some 1;
             progress := 0 |})
  /\ namesTask [pageTask 1 600 1000] "error with page1: disk full".
Proof.
  assert (H : Load (storage := fullStorage) splitting
                (inr (1, [pageTask 1 600 1000])) None workersRatio
                (replicate 3 0%nat)
              = Some (Exited "error with page1: disk full",
                      {| transforms := [(1, 0)]; stored := [];
                         barMax := Some 1; progress := 0 |}))
    by (vm_compute; reflexivity).
  split; [exact H|].
  destruct (Load_exit_names_task (storage := fullStorage) _ _ _ _ _ _ _ H)
    as (_ & _ & count & tasks & [= <- <-] & Hn).
  exact Hn.
Defined.

Lemma Load_returns_with_reliable_storage_witness :
  exists sched imgs err eff,
    Load splitting (inr (3, threeTasks)) None workersRatio sched
    = Some (Returned imgs err, eff).
Proof.
  apply (Load_returns_with_reliable_storage splitting (inr (3, threeTasks))
           None workersRatio).
  reflexivity.
Defined.

Lemma single_worker_keeps_order_witness :
  map idPart (output (runPool splitting 1 threeTasks (replicate 18 0%nat)))
  = [(0, 0); (1, 0); (2, 1); (2, 2)]
  /\ output (runPool splitting 1 threeTasks (replicate 18 0%nat))
     = flat_map (fun nt => sends (workerBody splitting nt)) (indexed threeTasks).
Proof.
  split; [vm_compute; reflexivity|].
  apply (single_worker_keeps_order splitting threeTasks (replicate 18 0%nat)).
  vm_compute; reflexivity.
Defined.

(** The options of the samples without auto-split. *)
Lemma plain_run :
  exists imgs eff,
    Load rotating (inr (3, threeTasks)) None workersRatio (replicate 13 0%nat)
    = Some (Returned imgs None, eff)
    /\ map idPart imgs = [(0, 0); (1, 0); (2, 0)]
    /\ progress eff = 3.
Proof.
  eexists _, _. split; [vm_compute; reflexivity|].
  split; vm_compute; reflexivity.
Qed.

Lemma Load_progress_bound_witness :
  exists imgs eff,
    Load rotating (inr (3, threeTasks)) None workersRatio (replicate 13 0%nat)
    = Some (Returned imgs None, eff)
    /\ progress eff <= Z.of_nat (length threeTasks)
    /\ progress eff = Z.of_nat (length threeTasks).
Proof.
  destruct plain_run as (imgs & eff & H & _).
  exists imgs, eff. split; [exact H|].
  destruct (Load_progress_bound rotating 3 threeTasks workersRatio
              (replicate 13 0%nat) imgs None eff eq_refl ltac:(reflexivity) H)
    as [Hle Heq].
  split; [exact Hle|]. apply Heq. by left.
Defined.

Lemma Load_one_image_per_task_witness :
  exists imgs eff,
    Load rotating (inr (3, threeTasks)) None workersRatio (replicate 13 0%nat)
    = Some (Returned imgs None, eff)
    /\ imgs ≡ₚ map (fun nt => release (part0 rotating nt)) (indexed threeTasks)
    /\ length imgs = length threeTasks.
Proof.
  destruct plain_run as (imgs & eff & H & _).
  exists imgs, eff. split; [exact H|].
  destruct (Load_one_image_per_task rotating 3 threeTasks workersRatio
              (replicate 13 0%nat) imgs None eff eq_refl ltac:(reflexivity)
              eq_refl eq_refl H) as (Hp & Hl & _).
  by split.
Defined.

Lemma Load_pages_are_distinct_witness :
  exists imgs eff,
    Load splitting (inr (3, threeTasks)) None workersRatio (replicate 18 0%nat)
    = Some (Returned imgs None, eff)
    /\ map idPart imgs = [(0, 0); (1, 0); (2, 1); (2, 2)]
    /\ NoDup (map idPart imgs).
Proof.
  assert (H : exists imgs eff,
    Load splitting (inr (3, threeTasks)) None workersRatio (replicate 18 0%nat)
    = Some (Returned imgs None, eff)
    /\ map idPart imgs = [(0, 0); (1, 0); (2, 1); (2, 2)]).
  { eexists _, _. split; vm_compute; reflexivity. }
  destruct H as (imgs & eff & H & Hparts).
  exists imgs, eff. split; [exact H|]. split; [exact Hparts|].
  apply (Load_pages_are_distinct splitting 3 threeTasks workersRatio
           (replicate 18 0%nat) imgs None eff); [|reflexivity|reflexivity|exact H].
  vm_compute. repeat (apply NoDup_cons; split;
    [rewrite ?elem_of_cons, elem_of_nil; intuition discriminate|]).
  apply NoDup_nil_2.
Defined.

End processor_more_examples.
